(** * gamegraphicsjs: the planar codec, the limits check and the handler registry

    A shallow embedding of [src/util/image-planar.js] ([fromPlanar],
    [toPlanar]) and of [src/formats/index.js] ([checkLimits], [getHandler],
    [findHandler], [listHandlers]), followed by the properties the
    specification states about them.

    JavaScript numbers that the code uses as counters, indices and bytes are
    integers and are modelled in [Z], with the 32-bit and 8-bit wrap-around
    of the bit operators and of the typed array written out; the two places
    where the code can meet a value that is not a number are kept: reading
    an array past its end gives [undefined], and [%] by zero gives [NaN].
    Both are [None] of an [option Z]. *)

From stdpp Require Import base list strings pretty.
From Stdlib Require Import ZArith Lia.

Local Open Scope Z_scope.

(** ** Numbers *)

Module JS.

(** The integer conversions of ECMAScript, on integers. *)
Definition ToInt32 (x : Z) : Z := (x + 2 ^ 31) mod 2 ^ 32 - 2 ^ 31.
Definition ToUint32 (x : Z) : Z := x mod 2 ^ 32.
Definition ToUint8 (x : Z) : Z := x mod 2 ^ 8.

(** [a >> n]; [undefined] and [NaN] convert to 0. *)
Definition sar (a : option Z) (n : Z) : Z :=
  Z.shiftr (ToInt32 (default 0 a)) (ToUint32 n mod 32).

(** [a << n]. *)
Definition shl (a : Z) (n : option Z) : Z :=
  ToInt32 (Z.shiftl (ToInt32 a) (ToUint32 (default 0 n) mod 32)).

(** [a & b] and [a | b]. *)
Definition and (a b : Z) : Z := Z.land (ToInt32 a) (ToInt32 b).
Definition or (a : option Z) (b : Z) : Z :=
  Z.lor (ToInt32 (default 0 a)) (ToInt32 b).

(** [a % b]: the remainder has the sign of [a]; [NaN] when [b] is 0. *)
Definition rem (a b : Z) : option Z :=
  if decide (b = 0) then None else Some (Z.rem a b).

(** [a + b] and [a === b] when [a] may be [NaN]. *)
Definition add (a : option Z) (b : Z) : option Z := (λ x, x + b) <$> a.
Definition strict_eq (a : option Z) (b : Z) : bool := bool_decide (a = Some b).

(** [Math.ceil(a / 8)]. *)
Definition ceil_div8 (a : Z) : Z := - ((- a) / 8).

(** [(x / 8) >>> 0] and [(x / 8) >> 0] for [0 <= x]: the quotient is
    truncated, then wrapped to 32 bits. *)
Definition div8_uint32 (x : Z) : Z := ToUint32 (x / 8).
Definition div8_int32 (x : Z) : Z := ToInt32 (x / 8).

(** What the two functions can throw. *)
Inductive exn : Type :=
| RangeError_invalid_typed_array_length
| Error_planeWidth_too_small (planeWidth : Z).

(** [new Uint8Array(num / den)].  The length goes through [ToIndex]: a
    fraction is truncated toward zero, [NaN] (0/0) counts as 0, and a
    length that is infinite or at most -1 throws [RangeError].  This is the
    allocation for a length of at most 2^53 - 1, the largest index; above
    it [ToIndex] throws [RangeError] as well, a case that is left to the
    statements: those that let [planes] range freely ask for
    [content.length * planes] to be at most 2^53 - 1. *)
Definition new_Uint8Array (num den : Z) : exn + list Z :=
  if decide (den = 0) then
    if decide (num = 0) then inr [] else inl RangeError_invalid_typed_array_length
  else if decide (Z.quot num den < 0) then inl RangeError_invalid_typed_array_length
  else inr (replicate (Z.to_nat (Z.quot num den)) 0).

(** [a[k]]: [undefined] outside the array (and for [k] = [NaN]). *)
Definition get (a : list Z) (k : option Z) : option Z :=
  match k with
  | Some k => if decide (0 ≤ k) then a !! Z.to_nat k else None
  | None => None
  end.

(** [a[k] |= v] on a [Uint8Array]: the stored value is cut to 8 bits, and a
    write outside the array (or at [NaN]) is ignored. *)
Definition or_assign (a : list Z) (k : option Z) (v : Z) : list Z :=
  match k with
  | Some k =>
      if decide (0 ≤ k)
      then <[Z.to_nat k := ToUint8 (or (a !! Z.to_nat k) v)]> a
      else a
  | None => a
  end.

(** [for (let i = i0; i < limit; i += step) body].  The loops of the codec
    have a positive step, so the distance to [limit] is enough fuel
    ([for_loop_enough] below). *)
Fixpoint for_loop {St : Type} (fuel : nat) (i limit step : Z)
    (body : Z → St → St) (s : St) : St :=
  match fuel with
  | O => s
  | S fuel' =>
      if decide (i < limit)
      then for_loop fuel' (i + step) limit step body (body i s)
      else s
  end.

End JS.

Definition len {A : Type} (l : list A) : Z := Z.of_nat (length l).

(** ** src/util/image-planar.js *)

(** The body of the inner loop of [fromPlanar], lines 53-57. *)
Definition fromPlanar_pixel (content : list Z) (byteOrderMSB : bool)
    (i : Z) (plane : option Z) (outpos : Z) (b : Z) (out : list Z) : list Z :=
  let srcByteOffset := JS.div8_uint32 b in
  let srcBit := if byteOrderMSB then 7 - Z.rem b 8 else Z.rem b 8 in
  let data := JS.get content (Some (i + srcByteOffset)) in
  let value := JS.shl (JS.and (JS.sar data srcBit) 1) plane in
  JS.or_assign out (Some (outpos + b)) value.

(** The body of the outer loop, lines 51-59, on the pair [(outpos, out)].
    [i] is a multiple of [widthBytes], so [i / widthBytes] is an integer. *)
Definition fromPlanar_stride (content : list Z) (planes planeWidth : Z)
    (byteOrderMSB : bool) (widthBytes : Z) (i : Z) (st : Z * list Z) : Z * list Z :=
  let '(outpos, out) := st in
  let plane := JS.rem (i / widthBytes) planes in
  let out :=
    JS.for_loop (Z.to_nat planeWidth) 0 planeWidth 1
      (fromPlanar_pixel content byteOrderMSB i plane outpos) out in
  if JS.strict_eq plane (planes - 1) then (outpos + planeWidth, out) else (outpos, out).

Definition fromPlanar (content : list Z) (planes planeWidth : Z)
    (byteOrderMSB : bool) : JS.exn + list Z :=
  match JS.new_Uint8Array (len content * 8) planes with
  | inl e => inl e
  | inr out =>
      let outpos := 0 in
      let widthBytes := JS.ceil_div8 planeWidth in
      if decide (widthBytes ≤ 0) then inl (JS.Error_planeWidth_too_small planeWidth)
      else
        inr (snd (JS.for_loop (length content) 0 (len content) widthBytes
                    (fromPlanar_stride content planes planeWidth byteOrderMSB widthBytes)
                    (outpos, out)))
  end.

(** The body of the inner loop of [toPlanar], lines 94-95. *)
Definition toPlanar_plane (data : option Z) (pixelByte : option Z) (pixelBit : Z)
    (widthBytes outpos : Z) (b : Z) (out : list Z) : list Z :=
  let val := JS.shl (JS.and (JS.sar data b) 1) (Some pixelBit) in
  JS.or_assign out (JS.add ((λ x, outpos + x) <$> pixelByte) (b * widthBytes)) val.

(** The body of the outer loop, lines 90-97. *)
Definition toPlanar_pixel (content : list Z) (planes planeWidth : Z)
    (byteOrderMSB : bool) (widthBytes : Z) (i : Z) (st : Z * list Z) : Z * list Z :=
  let '(outpos, out) := st in
  let pixelByte := JS.rem (JS.div8_int32 i) widthBytes in
  let pixelBit := if byteOrderMSB then 7 - Z.rem i 8 else Z.rem i 8 in
  let data := JS.get content (Some i) in
  let out :=
    JS.for_loop (Z.to_nat planes) 0 planes 1
      (toPlanar_plane data pixelByte pixelBit widthBytes outpos) out in
  if JS.strict_eq (JS.rem i planeWidth) (planeWidth - 1)
  then (outpos + planes * widthBytes, out) else (outpos, out).

Definition toPlanar (content : list Z) (planes planeWidth : Z)
    (byteOrderMSB : bool) : JS.exn + list Z :=
  match JS.new_Uint8Array (len content * planes) 8 with
  | inl e => inl e
  | inr out =>
      let outpos := 0 in
      let widthBytes := JS.ceil_div8 planeWidth in
      inr (snd (JS.for_loop (length content) 0 (len content) 1
                  (toPlanar_pixel content planes planeWidth byteOrderMSB widthBytes)
                  (outpos, out)))
  end.

(** For the statements: byte [x] of an array (0 outside it), and the bit of
    a byte that holds pixel [b] of a row, as both functions compute it. *)
Definition byte_at (a : list Z) (x : Z) : Z := default 0 (JS.get a (Some x)).
Definition bit_index (byteOrderMSB : bool) (b : Z) : Z :=
  if byteOrderMSB then 7 - Z.rem b 8 else Z.rem b 8.

(** Invariants of the loops, for rows of [8 * wb] pixels.

    [fromPlanar_bit n x q]: bit [q] of pixel [x] once the first [n] strides
    have been read; [fromPlanar_row_bit n b x q]: what the first [b] pixels of
    stride [n] add to it. *)
Definition fromPlanar_bit (content : list Z) (planes wb : Z) (byteOrderMSB : bool)
    (n x q : Z) : bool :=
  bool_decide (q < planes ∧ x / (8 * wb) * planes + q < n)
  && Z.testbit
       (byte_at content ((x / (8 * wb) * planes + q) * wb + x mod (8 * wb) / 8))
       (bit_index byteOrderMSB (x mod (8 * wb))).

Definition fromPlanar_row_bit (content : list Z) (planes wb : Z) (byteOrderMSB : bool)
    (n b x q : Z) : bool :=
  bool_decide (q = n mod planes
               ∧ n / planes * (8 * wb) ≤ x < n / planes * (8 * wb) + b)
  && Z.testbit
       (byte_at content (n * wb + (x - n / planes * (8 * wb)) / 8))
       (bit_index byteOrderMSB (x - n / planes * (8 * wb))).

(** [toPlanar_pixel_of y q]: the pixel that bit [q] of output byte [y] comes
    from; [toPlanar_bit i b y q]: that bit once the first [i] pixels, and the
    first [b] planes of pixel [i], have been written. *)
Definition toPlanar_pixel_of (planes wb : Z) (byteOrderMSB : bool) (y q : Z) : Z :=
  y / (planes * wb) * (8 * wb) + 8 * (y mod wb) + bit_index byteOrderMSB q.

Definition toPlanar_bit (content : list Z) (planes wb : Z) (byteOrderMSB : bool)
    (i b y q : Z) : bool :=
  bool_decide (q < 8
               ∧ (toPlanar_pixel_of planes wb byteOrderMSB y q < i
                  ∨ (toPlanar_pixel_of planes wb byteOrderMSB y q = i
                     ∧ (y / wb) mod planes < b)))
  && Z.testbit (byte_at content (toPlanar_pixel_of planes wb byteOrderMSB y q))
       ((y / wb) mod planes).

(** [toPlanar(fromPlanar(content, ...), ...)] with the same parameters. *)
Definition round_trip (content : list Z) (planes planeWidth : Z)
    (byteOrderMSB : bool) : JS.exn + list Z :=
  match fromPlanar content planes planeWidth byteOrderMSB with
  | inl e => inl e
  | inr linear => toPlanar linear planes planeWidth byteOrderMSB
  end.

(** ** src/formats/index.js: the handler base class *)

(** [limits] of a handler's metadata; [None] is [undefined]. *)
Record Limits : Type := {
  maxFilenameLen : option Z;
  maxFileCount : option Z;
}.

Record Metadata : Type := {
  id : string;
  title : string;
  games : list string;
  glob : list string;
  limits : Limits;
}.

(** An entry of an archive.  [getContent] is the entry's lazily produced
    content: a producer that only reads. *)
Record File : Type := {
  name : string;
  nativeSize : Z;
  getContent : unit → list Z;
}.

Record Archive : Type := {
  files : list File;
}.

(** What [identify] returns: [true], [false] or [undefined], in this
    order. *)
Inductive Confidence : Type :=
| DefiniteMatch
| DefiniteNoMatch
| PossibleMatch.

#[global] Instance Confidence_eq_dec : EqDecision Confidence.
Proof. solve_decision. Defined.

(** A format handler: the static methods the registry and the limits check
    call. *)
Record Handler : Type := {
  metadata : Metadata;
  identify : list Z → Confidence;
}.

(** What [checkLimits] can touch: the archive it is given, which it holds by
    reference, and the debug channel. *)
Record World : Type := {
  archive : Archive;
  debug_log : list string;
}.

(** Modelled from the spec: [Debug.warn] of [util/utl-debug.js], which is not
    among the sources at hand; a diagnostic for development-time logging,
    kept apart from the issues that are returned. *)
Definition Debug_warn (msg : string) (w : World) : World :=
  {| archive := archive w; debug_log := debug_log w ++ [msg] |}.

(** A condition [if (x)] on a limit: [undefined] and 0 are falsy. *)
Definition truthy (x : option Z) : bool :=
  match x with
  | Some n => bool_decide (n ≠ 0)
  | None => false
  end.

(** [a > b] where [b] was found truthy. *)
Definition gt_limit (a : Z) (b : option Z) : bool :=
  match b with
  | Some n => bool_decide (n < a)
  | None => false
  end.

(** A number in a template literal; the length of a string (names are taken
    to be ASCII, one character per code unit). *)
Definition num_to_string (n : Z) : string := pretty n.
Definition limit_to_string (x : option Z) : string :=
  match x with
  | Some n => num_to_string n
  | None => "undefined"
  end.

Definition str_length (s : string) : Z := Z.of_nat (String.length s).

(** The issue of lines 130-131. *)
Definition file_count_issue (count : Z) (limit : option Z) : string :=
  "There are " +:+ num_to_string count +:+ " files to save, but this "
  +:+ "archive format can only store up to " +:+ limit_to_string limit +:+ " files.".

(** The issue of lines 137-138. *)
Definition filename_issue (file : File) (limit : option Z) : string :=
  "Filename length is " +:+ num_to_string (str_length (name file)) +:+ ", max is "
  +:+ limit_to_string limit +:+ ": " +:+ name file.

(** The warning of lines 147-150. *)
Definition nativeSize_warning (file : File) (content : list Z) : string :=
  "File " +:+ name file +:+ " has nativeSize unset but content is "
  +:+ num_to_string (len content) +:+ " bytes.  This will cause slow memory "
  +:+ "reallocations during archive writes and should be fixed if "
  +:+ "possible.".

(** The two kinds of issue are told apart by how they start. *)
Definition is_file_count_issue (issue : string) : bool :=
  String.prefix "There are " issue.
Definition is_filename_issue (issue : string) : bool :=
  String.prefix "Filename length is " issue.

(** The callback of the first [forEach], lines 136-139. *)
Definition checkLimits_filename (limits : Limits) (issues : list string)
    (file : File) : list string :=
  if gt_limit (str_length (name file)) (maxFilenameLen limits)
  then issues ++ [filename_issue file (maxFilenameLen limits)]
  else issues.

(** The callback of the second [forEach], lines 144-153. *)
Definition checkLimits_nativeSize (w : World) (file : File) : World :=
  if bool_decide (nativeSize file = 0) then
    let content := getContent file () in
    if bool_decide (len content ≠ 0)
    then Debug_warn (nativeSize_warning file content) w
    else w
  else w.

(** [checkLimits(archive)], a static method of the handler [this]; the
    archive is [archive w]. *)
Definition checkLimits (this : Handler) (w : World) : list string * World :=
  let limits := limits (metadata this) in
  let issues := [] in
  let issues :=
    if truthy (maxFileCount limits)
       && gt_limit (len (files (archive w))) (maxFileCount limits)
    then issues ++ [file_count_issue (len (files (archive w))) (maxFileCount limits)]
    else issues in
  let issues :=
    if truthy (maxFilenameLen limits)
    then fold_left (checkLimits_filename limits) (files (archive w)) issues
    else issues in
  let w := fold_left checkLimits_nativeSize (files (archive w)) w in
  (issues, w).

(** ** checkLimits with its calls into other code *)

(** [checkLimits] calls [file.getContent()], a function that comes with the
    archive, and [Debug.warn(msg)].  In [checkLimits] above both only read.
    Here they are calls on an object store: a call may change the store,
    and it returns or throws (the thrown value is a string).  The entries
    are references; the array [archive.files] and the fields [name] and
    [nativeSize] of an entry are read from the store at the moment the code
    reads them. *)
Record Store (Heap Ref : Type) : Type := {
  files_of : Heap → list Ref;
  name_of : Heap → Ref → string;
  nativeSize_of : Heap → Ref → Z;
  call_getContent : Ref → Heap → (string + list Z) * Heap;
  call_Debug_warn : string → Heap → (string + unit) * Heap;
}.

Arguments files_of {Heap Ref}.
Arguments name_of {Heap Ref}.
Arguments nativeSize_of {Heap Ref}.
Arguments call_getContent {Heap Ref}.
Arguments call_Debug_warn {Heap Ref}.

(** The messages of lines 137-138 and 147-150, from the name. *)
Definition filename_issue_for (n : string) (limit : option Z) : string :=
  "Filename length is " +:+ num_to_string (str_length n) +:+ ", max is "
  +:+ limit_to_string limit +:+ ": " +:+ n.

Definition nativeSize_warning_for (n : string) (content : list Z) : string :=
  "File " +:+ n +:+ " has nativeSize unset but content is "
  +:+ num_to_string (len content) +:+ " bytes.  This will cause slow memory "
  +:+ "reallocations during archive writes and should be fixed if "
  +:+ "possible.".

(** [archive.files.forEach(cb)] for a callback that calls other code: the
    length is read once ([n] elements from index [k] on), element [k] is
    read when it is reached, an index that is no longer in the array is
    skipped, and a throw of the callback ends the loop. *)
Fixpoint forEach_files {Heap Ref : Type} (st : Store Heap Ref)
    (cb : Ref → Heap → (string + unit) * Heap) (n k : nat) (h : Heap)
    : (string + unit) * Heap :=
  match n with
  | O => (inr (), h)
  | S n' =>
      match files_of st h !! k with
      | None => forEach_files st cb n' (S k) h
      | Some r =>
          match cb r h with
          | (inl thrown, h') => (inl thrown, h')
          | (inr _, h') => forEach_files st cb n' (S k) h'
          end
      end
  end.

(** The callback of the second [forEach], lines 144-153. *)
Definition nativeSize_cb {Heap Ref : Type} (st : Store Heap Ref) (r : Ref) (h : Heap)
    : (string + unit) * Heap :=
  if bool_decide (nativeSize_of st h r = 0) then
    match call_getContent st r h with
    | (inl thrown, h') => (inl thrown, h')
    | (inr content, h') =>
        if bool_decide (len content ≠ 0)
        then call_Debug_warn st (nativeSize_warning_for (name_of st h' r) content) h'
        else (inr (), h')
    end
  else (inr (), h).

(** [checkLimits(archive)] on the store.  Up to the second [forEach] no
    other code is called, so the count and the names are those of the
    store [h] the function starts in. *)
Definition checkLimits_in_store {Heap Ref : Type} (st : Store Heap Ref)
    (this : Handler) (h : Heap) : (string + list string) * Heap :=
  let limits := limits (metadata this) in
  let issues := [] in
  let issues :=
    if truthy (maxFileCount limits)
       && gt_limit (len (files_of st h)) (maxFileCount limits)
    then issues ++ [file_count_issue (len (files_of st h)) (maxFileCount limits)]
    else issues in
  let issues :=
    if truthy (maxFilenameLen limits)
    then fold_left
           (λ issues r,
              if gt_limit (str_length (name_of st h r)) (maxFilenameLen limits)
              then issues ++ [filename_issue_for (name_of st h r) (maxFilenameLen limits)]
              else issues)
           (files_of st h) issues
    else issues in
  match forEach_files st (nativeSize_cb st) (length (files_of st h)) 0 h with
  | (inl thrown, h') => (inl thrown, h')
  | (inr _, h') => (inr issues, h')
  end.

(** The collection is the same in two stores: the same array of entries,
    with the same names and sizes. *)
Definition same_collection {Heap Ref : Type} (st : Store Heap Ref) (h1 h2 : Heap) : Prop :=
  files_of st h2 = files_of st h1
  ∧ (∀ r, name_of st h2 r = name_of st h1 r)
  ∧ (∀ r, nativeSize_of st h2 r = nativeSize_of st h1 r).

(** The store of [checkLimits] above: entries are their own references,
    [getContent] returns the content and [Debug.warn] writes to the debug
    channel; neither throws. *)
Definition pure_store : Store World File :=
  {| files_of := λ w, files (archive w);
     name_of := λ _ f, name f;
     nativeSize_of := λ _ f, nativeSize f;
     call_getContent := λ f w, (inr (getContent f ()), w);
     call_Debug_warn := λ msg w, (inr (), Debug_warn msg w) |}.

(** Two stores for examples: one entry, of size 0, whose [getContent]
    throws; and an array of entries of size 0 whose [getContent] empties
    the array ([archive.files.length = 0]) before it returns. *)
Definition throwing_store : Store unit unit :=
  {| files_of := λ _, [()];
     name_of := λ _ _, "a";
     nativeSize_of := λ _ _, 0;
     call_getContent := λ _ h, (inl "read error", h);
     call_Debug_warn := λ _ h, (inr (), h) |}.

Definition emptying_store : Store (list nat) nat :=
  {| files_of := λ h, h;
     name_of := λ _ _, "a";
     nativeSize_of := λ _ _, 0;
     call_getContent := λ _ _, (inr [], []);
     call_Debug_warn := λ _ h, (inr (), h) |}.

(** ** src/formats/index.js: the registry *)

(** The variable [handlers] that the callback of [findHandler] assigns,
    together with the handlers whose [identify] has been called so far. *)
Record Search : Type := {
  handlers : list Handler;
  consulted : list Handler;
}.

(** [Array.prototype.some] with a callback that updates [s]: stops at the
    first element for which the callback returns a truthy value. *)
Fixpoint Array_some {A St : Type} (cb : A → St → bool * St) (l : list A)
    (s : St) : bool * St :=
  match l with
  | [] => (false, s)
  | x :: l' =>
      let '(r, s') := cb x s in
      if r then (true, s') else Array_some cb l' s'
  end.

(** The callback of lines 321-332; it returns [true] or, by falling off its
    end, [undefined].  (Its call of [x.metadata()] has no use and no
    effect.) *)
Definition findHandler_cb (content : list Z) (x : Handler) (s : Search)
    : bool * Search :=
  let confidence := identify x content in
  let called := consulted s ++ [x] in
  match confidence with
  | DefiniteMatch => (true, {| handlers := [x]; consulted := called |})
  | PossibleMatch => (false, {| handlers := handlers s ++ [x]; consulted := called |})
  | DefiniteNoMatch => (false, {| handlers := handlers s; consulted := called |})
  end.

(** The registry [fileTypes] is a parameter: the handler modules it lists
    are not part of the sources at hand. *)
Definition findHandler_search (fileTypes : list Handler) (content : list Z) : Search :=
  snd (Array_some (findHandler_cb content) fileTypes
         {| handlers := []; consulted := [] |}).

Definition findHandler (fileTypes : list Handler) (content : list Z) : list Handler :=
  handlers (findHandler_search fileTypes content).

Definition getHandler (fileTypes : list Handler) (type : string) : option Handler :=
  List.find (λ x, bool_decide (type = id (metadata x))) fileTypes.

Definition listHandlers (fileTypes : list Handler) : list Handler := fileTypes.

(** A handler that gives the same answer whatever the content, and has the
    given limits; used to run the registry and the limits check on examples. *)
Definition example_handler (name : string) (answer : Confidence)
    (lim : Limits) : Handler :=
  {| metadata := {| id := name; title := name; games := []; glob := [];
                    limits := lim |};
     identify := λ _, answer |}.

Definition no_limits : Limits := {| maxFilenameLen := None; maxFileCount := None |}.

(** An entry with the given name and content, and a world holding the
    archive of such entries. *)
Definition example_file (n : string) (content : list Z) : File :=
  {| name := n; nativeSize := len content; getContent := λ _, content |}.
Definition example_world (fs : list File) : World :=
  {| archive := {| files := fs |}; debug_log := [] |}.

(** ** The defaults of the handler base class *)

(** [metadata()], [identify(content)], [supps(name, content)], [parse] and
    [generate] as the base class defines them, lines 67-112 and 183-241: no
    limits, never a match, no supplementary files ([null]), and the last
    two throw. *)
Definition ImageHandler_metadata : Metadata :=
  {| id := "unknown"; title := "Unknown format"; games := []; glob := [];
     limits := {| maxFilenameLen := None; maxFileCount := None |} |}.

Definition ImageHandler_identify (content : list Z) : Confidence := DefiniteNoMatch.

Definition ImageHandler_supps (name : string) (content : list Z)
    : option (list (string * string)) := None.

Definition ImageHandler_parse (content : list Z) : string + Archive :=
  inl "Not implemented yet.".

Definition ImageHandler_generate (archive : Archive) : string + list Z :=
  inl "Not implemented yet.".

Definition ImageHandler : Handler :=
  {| metadata := ImageHandler_metadata; identify := ImageHandler_identify |}.

(** ** For the statements about bit order *)

(** The byte that has bits 0..7 of [v] in reverse order. *)
Definition reverse_bits8 (v : Z) : Z :=
  fold_right Z.lor 0
    ((λ i, Z.shiftl (Z.b2z (Z.testbit v i)) (7 - i)) <$> [0; 1; 2; 3; 4; 5; 6; 7]).

(** [fromPlanar(toPlanar(linear, ...), ...)] with the same parameters. *)
Definition linear_round_trip (linear : list Z) (planes planeWidth : Z)
    (byteOrderMSB : bool) : JS.exn + list Z :=
  match toPlanar linear planes planeWidth byteOrderMSB with
  | inl e => inl e
  | inr packed => fromPlanar packed planes planeWidth byteOrderMSB
  end.

(** * Properties *)

(** ** Loops *)

Section for_loop.
Context {St : Type}.
Implicit Types (body : Z → St → St) (s : St).

(** The rule of a counting loop: an invariant indexed by the counter holds
    at exit, where the counter is the first value not below [limit]. *)
Lemma for_loop_rule (Inv : Z → St → Prop) limit step body :
  0 < step →
  (∀ i s, i < limit → Inv i s → Inv (i + step) (body i s)) →
  ∀ fuel i s,
    (Z.to_nat (limit - i) ≤ fuel)%nat → Inv i s →
    ∃ i', limit ≤ i' ∧ (i' = i ∨ i' - step < limit)
          ∧ Inv i' (JS.for_loop fuel i limit step body s).
Proof.
  intros Hstep Hbody fuel. induction fuel as [|fuel IH]; intros i s Hfuel HI; simpl.
  - exists i. split; [lia|]. auto.
  - destruct (decide (i < limit)) as [Hlt|Hge].
    + destruct (IH (i + step) (body i s)) as (i' & H1 & H2 & H3); [lia|auto|].
      exists i'. split; [done|]. split; [right; lia|done].
    + exists i. split; [lia|]. auto.
Qed.

(** An invariant that does not look at the counter needs no fuel. *)
Lemma for_loop_preserves (P : St → Prop) limit step body :
  0 ≤ step →
  ∀ fuel i s,
    (∀ k s, i ≤ k < limit → P s → P (body k s)) →
    P s → P (JS.for_loop fuel i limit step body s).
Proof.
  intros Hstep fuel. induction fuel as [|fuel IH]; intros i s Hbody HP; simpl; [done|].
  destruct (decide (i < limit)); [|done].
  apply IH; [|apply Hbody; [lia|done]].
  intros k s' ?. apply Hbody. lia.
Qed.

(** With a positive step, fuel beyond the distance to [limit] changes
    nothing: the loop has stopped by its own test. *)
Lemma for_loop_enough limit step body :
  0 < step →
  ∀ fuel fuel' i s,
    (Z.to_nat (limit - i) ≤ fuel)%nat → (Z.to_nat (limit - i) ≤ fuel')%nat →
    JS.for_loop fuel i limit step body s = JS.for_loop fuel' i limit step body s.
Proof.
  intros Hstep fuel. induction fuel as [|fuel IH]; intros fuel' i s H1 H2.
  - destruct fuel' as [|fuel']; simpl; [done|].
    destruct (decide (i < limit)); [lia|done].
  - destruct fuel' as [|fuel']; simpl; destruct (decide (i < limit)); try done; try lia.
    apply IH; lia.
Qed.
End for_loop.

(** ** Bits *)

Lemma ToInt32_small x : - 2 ^ 31 ≤ x < 2 ^ 31 → JS.ToInt32 x = x.
Proof. intros H. unfold JS.ToInt32. rewrite Z.mod_small; lia. Qed.

Lemma ToInt32_testbit x q : 0 ≤ q < 32 → Z.testbit (JS.ToInt32 x) q = Z.testbit x q.
Proof.
  intros Hq. unfold JS.ToInt32.
  rewrite <- (Z.mod_pow2_bits_low _ 32 q) by lia.
  rewrite <- (Z.mod_pow2_bits_low x 32 q) by lia.
  f_equal.
  replace ((x + 2 ^ 31) mod 2 ^ 32 - 2 ^ 31)
    with (x + (- ((x + 2 ^ 31) / 2 ^ 32)) * 2 ^ 32).
  - apply Z_mod_plus_full.
  - pose proof (Z.div_mod (x + 2 ^ 31) (2 ^ 32)). lia.
Qed.

Lemma ToUint8_testbit x q : 0 ≤ q → Z.testbit (JS.ToUint8 x) q = bool_decide (q < 8) && Z.testbit x q.
Proof.
  intros Hq. unfold JS.ToUint8. rewrite Z.testbit_mod_pow2 by lia.
  f_equal. case_bool_decide; lia.
Qed.

Lemma ToUint8_range x : 0 ≤ JS.ToUint8 x < 256.
Proof. unfold JS.ToUint8. apply Z.mod_pos_bound. lia. Qed.

Lemma shift_count n : 0 ≤ n < 32 → JS.ToUint32 n mod 32 = n.
Proof.
  intros H. unfold JS.ToUint32.
  rewrite (Z.mod_small n (2 ^ 32)) by lia. apply Z.mod_small. lia.
Qed.

(** [(data >> n) & 1] is bit [n] of [data], as 0 or 1. *)
Lemma bit_extract (data : option Z) n :
  0 ≤ n < 32 → JS.and (JS.sar data n) 1 = Z.b2z (Z.testbit (default 0 data) n).
Proof.
  intros Hn. unfold JS.and, JS.sar. rewrite shift_count by done.
  rewrite (ToInt32_small 1) by lia.
  change 1 with (Z.ones 1) at 1. rewrite Z.land_ones by lia.
  change (2 ^ 1) with 2. rewrite <- Z.bit0_mod. f_equal.
  rewrite ToInt32_testbit by lia.
  rewrite Z.shiftr_spec by lia. rewrite ToInt32_testbit by lia. done.
Qed.

Lemma bit_extract_01 (data : option Z) n :
  JS.and (JS.sar data n) 1 = 0 ∨ JS.and (JS.sar data n) 1 = 1.
Proof.
  unfold JS.and. rewrite (ToInt32_small 1) by lia.
  assert (H : ∀ x, Z.land x 1 = x mod 2).
  { intros x. change 1 with (Z.ones 1). by rewrite Z.land_ones by lia. }
  rewrite H. pose proof (Z.mod_pos_bound (JS.ToInt32 (JS.sar data n)) 2). lia.
Qed.

Lemma b2z_testbit (c : bool) q : 0 ≤ q → Z.testbit (Z.b2z c) q = bool_decide (q = 0) && c.
Proof.
  intros Hq. destruct c; simpl.
  - case_bool_decide; subst; simpl; [done|]. apply Z.bits_above_log2; simpl; lia.
  - rewrite Z.bits_0. by rewrite andb_false_r.
Qed.

(** [bit << p] has at most bit [p] set. *)
Lemma shl_bit_testbit (c : bool) p q :
  0 ≤ p < 32 → 0 ≤ q < 32 →
  Z.testbit (JS.shl (Z.b2z c) (Some p)) q = bool_decide (q = p) && c.
Proof.
  intros Hp Hq. unfold JS.shl. simpl. rewrite shift_count by done.
  rewrite ToInt32_testbit by done.
  rewrite (ToInt32_small (Z.b2z c)) by (destruct c; simpl; lia).
  rewrite Z.shiftl_spec by lia.
  destruct (decide (q < p)).
  - rewrite Z.testbit_neg_r by lia. case_bool_decide; [lia|done].
  - rewrite b2z_testbit by lia. f_equal. repeat case_bool_decide; lia.
Qed.

(** ** Typed arrays *)

Lemma new_Uint8Array_nonneg num den :
  0 ≤ num → 0 < den →
  JS.new_Uint8Array num den = inr (replicate (Z.to_nat (num / den)) 0).
Proof.
  intros Hnum Hden. unfold JS.new_Uint8Array.
  rewrite Z.quot_div_nonneg by lia.
  destruct (decide (den = 0)); [lia|].
  destruct (decide (num / den < 0)) as [Hneg|]; [|done].
  pose proof (Z.div_pos num den). lia.
Qed.

Lemma ceil_div8_nonpos w : w ≤ 0 → JS.ceil_div8 w ≤ 0.
Proof. intros H. unfold JS.ceil_div8. pose proof (Z.div_pos (- w) 8). lia. Qed.

Lemma ceil_div8_pos w : 0 < w → 0 < JS.ceil_div8 w.
Proof.
  intros H. unfold JS.ceil_div8.
  assert (- w / 8 < 0); [|lia]. apply Z.div_lt_upper_bound; lia.
Qed.

Lemma ceil_div8_mul wb : JS.ceil_div8 (8 * wb) = wb.
Proof.
  unfold JS.ceil_div8. replace (- (8 * wb)) with ((- wb) * 8) by lia.
  rewrite Z.div_mul by lia. lia.
Qed.

Lemma or_assign_length out k v : length (JS.or_assign out k v) = length out.
Proof.
  unfold JS.or_assign. destruct k as [k|]; [|done].
  case_decide; [|done]. apply length_insert.
Qed.

(** A write that stays below a bound keeps every element below it. *)
Lemma or_assign_Forall (P : Z → Prop) out k v :
  Forall P out →
  (∀ old, old ∈ out → P old → P (JS.ToUint8 (JS.or (Some old) v))) →
  Forall P (JS.or_assign out k v).
Proof.
  intros Hout Hv. unfold JS.or_assign. destruct k as [k|]; [|done].
  case_decide; [|done].
  destruct (out !! Z.to_nat k) as [old|] eqn:Hold.
  - apply Forall_insert; [done|]. apply Hv.
    + by eapply list_elem_of_lookup_2.
    + by eapply Forall_lookup_1.
  - rewrite list_insert_ge; [done|]. by apply lookup_ge_None.
Qed.

(** ** The planar codec: failures and sizes *)

Lemma fromPlanar_throws content planes planeWidth byteOrderMSB :
  planeWidth ≤ 0 →
  fromPlanar content planes planeWidth byteOrderMSB =
    match JS.new_Uint8Array (len content * 8) planes with
    | inl e => inl e
    | inr _ => inl (JS.Error_planeWidth_too_small planeWidth)
    end.
Proof.
  intros Hw. unfold fromPlanar.
  destruct (JS.new_Uint8Array _ _); [done|].
  pose proof (ceil_div8_nonpos planeWidth Hw). by case_decide.
Qed.

Lemma fromPlanar_stride_length content planes planeWidth byteOrderMSB widthBytes i st :
  length (snd (fromPlanar_stride content planes planeWidth byteOrderMSB widthBytes i st))
  = length (snd st).
Proof.
  destruct st as [outpos out]. unfold fromPlanar_stride.
  set (inner := JS.for_loop _ _ _ _ _ _).
  assert (length inner = length out) as Hlen.
  { subst inner. apply (for_loop_preserves (λ o, length o = length out)); [lia| |done].
    intros k o _ Ho. unfold fromPlanar_pixel. by rewrite or_assign_length. }
  by destruct (JS.strict_eq _ _).
Qed.

Lemma toPlanar_pixel_length content planes planeWidth byteOrderMSB widthBytes i st :
  length (snd (toPlanar_pixel content planes planeWidth byteOrderMSB widthBytes i st))
  = length (snd st).
Proof.
  destruct st as [outpos out]. unfold toPlanar_pixel.
  set (inner := JS.for_loop _ _ _ _ _ _).
  assert (length inner = length out) as Hlen.
  { subst inner. apply (for_loop_preserves (λ o, length o = length out)); [lia| |done].
    intros k o _ Ho. unfold toPlanar_plane. by rewrite or_assign_length. }
  by destruct (JS.strict_eq _ _).
Qed.

(** [toPlanar] returns whenever its buffer can be allocated, whatever
    [planeWidth] is, and the buffer keeps the allocated length. *)
Lemma toPlanar_returns content planes planeWidth byteOrderMSB :
  0 ≤ planes →
  ∃ out, toPlanar content planes planeWidth byteOrderMSB = inr out
         ∧ len out = (len content * planes) / 8.
Proof.
  intros Hp. unfold toPlanar.
  rewrite new_Uint8Array_nonneg by (unfold len; lia).
  eexists. split; [done|].
  set (out0 := replicate _ _).
  assert (length out0 = Z.to_nat (len content * planes / 8)) as Hlen0
    by apply length_replicate.
  set (final := JS.for_loop _ _ _ _ _ _).
  assert (length (snd final) = length out0) as Hlen.
  { subst final.
    apply (for_loop_preserves (λ st, length (snd st) = length out0)); [lia| |done].
    intros k s _ H. by rewrite toPlanar_pixel_length. }
  unfold len at 1. rewrite Hlen, Hlen0. rewrite Z2Nat.id; [done|].
  apply Z.div_pos; unfold len; lia.
Qed.

(** [toPlanar] returns exactly when the length of its buffer is not
    negative, that is when [content.length * planes > -8], whatever
    [planeWidth] is; the buffer keeps the allocated length and holds bytes. *)
Lemma quot8_negative n : n ≤ -8 ↔ Z.quot n 8 < 0.
Proof.
  split; intros H.
  - rewrite <- (Z.opp_involutive n), Z.quot_opp_l by lia.
    rewrite Z.quot_div_nonneg by lia.
    assert (1 ≤ - n / 8); [|lia]. apply Z.div_le_lower_bound; lia.
  - destruct (decide (n ≤ -8)); [done|].
    destruct (decide (0 ≤ n)).
    + rewrite Z.quot_div_nonneg in H by lia. pose proof (Z.div_pos n 8). lia.
    + assert (Z.quot n 8 = 0); [|lia]. apply Z.quot_small_iff; lia.
Qed.

Lemma toPlanar_allocated content planes planeWidth byteOrderMSB :
  - 8 < len content * planes →
  ∃ out, toPlanar content planes planeWidth byteOrderMSB = inr out
         ∧ len out = Z.quot (len content * planes) 8
         ∧ Forall (λ v, 0 ≤ v < 256) out.
Proof.
  intros Hpos. unfold toPlanar, JS.new_Uint8Array.
  destruct (decide (8 = 0)); [lia|].
  destruct (decide (Z.quot (len content * planes) 8 < 0)) as [Hneg|Hok].
  { apply quot8_negative in Hneg. lia. }
  eexists. split; [done|].
  set (out0 := replicate _ 0).
  set (final := JS.for_loop _ _ _ _ _ _).
  assert (length (snd final) = length out0 ∧ Forall (λ v, 0 ≤ v < 256) (snd final))
    as [Hlen Hbytes].
  { subst final.
    apply (for_loop_preserves
             (λ st, length (snd st) = length out0
                    ∧ Forall (λ v, 0 ≤ v < 256) (snd st))); [lia| |].
    - intros i [outpos out] _ [Hl Hb]. simpl in Hl, Hb.
      split; [by rewrite toPlanar_pixel_length|].
      unfold toPlanar_pixel.
      set (inner := JS.for_loop _ _ _ _ _ _).
      assert (Forall (λ v, 0 ≤ v < 256) inner) as Hinner.
      { subst inner.
        apply (for_loop_preserves (Forall (λ v, 0 ≤ v < 256))); [lia| |done].
        intros b o _ Ho. unfold toPlanar_plane. apply or_assign_Forall; [done|].
        intros old _ _. apply ToUint8_range. }
      by destruct (JS.strict_eq _ _).
    - split; [done|]. apply Forall_replicate. lia. }
  split; [|done]. unfold len at 1. rewrite Hlen. subst out0.
  rewrite length_replicate, Z2Nat.id; [done|lia].
Qed.

(** C2. [fromPlanar([0xAA, 0x55], 2, 8, true)] is [[1,2,1,2,1,2,1,2]]: plane 0
    (byte 0xAA, bits 10101010) gives bit 0 of each pixel and plane 1 (byte
    0x55, bits 01010101) gives bit 1. *)
Theorem fromPlanar_literal_example :
  fromPlanar [0xAA; 0x55] 2 8 true = inr [1; 2; 1; 2; 1; 2; 1; 2]
  ∧ fromPlanar [0xAA; 0] 2 8 true = inr [1; 0; 1; 0; 1; 0; 1; 0]
  ∧ fromPlanar [0; 0x55] 2 8 true = inr [0; 2; 0; 2; 0; 2; 0; 2].
Proof. repeat split; vm_compute; reflexivity. Qed.

(** C3. With [planeWidth <= 0], [fromPlanar] fails for every content, plane
    count and bit order.  The failure is the error thrown for the plane
    width whenever the plane count is at least 1 (for a count that makes the
    buffer length invalid the allocation has thrown already), and it is
    decided ahead of the loops: no byte of [content] takes part in it. *)
Theorem fromPlanar_rejects_planeWidth content planes planeWidth byteOrderMSB :
  planeWidth ≤ 0 →
  (∃ e, fromPlanar content planes planeWidth byteOrderMSB = inl e)
  ∧ (1 ≤ planes →
     fromPlanar content planes planeWidth byteOrderMSB
     = inl (JS.Error_planeWidth_too_small planeWidth))
  ∧ (∀ content', length content' = length content →
     fromPlanar content' planes planeWidth byteOrderMSB
     = fromPlanar content planes planeWidth byteOrderMSB).
Proof.
  intros Hw. rewrite fromPlanar_throws by done. split; [|split].
  - destruct (JS.new_Uint8Array _ _); eauto.
  - intros Hp. by rewrite new_Uint8Array_nonneg by (unfold len; lia).
  - intros content' Hlen. rewrite fromPlanar_throws by done.
    unfold len. by rewrite Hlen.
Qed.

Lemma fromPlanar_rejects_planeWidth_witness :
  fromPlanar [0xAA; 0x55] 2 0 true = inl (JS.Error_planeWidth_too_small 0)
  ∧ fromPlanar [0; 0] 2 0 true = fromPlanar [0xAA; 0x55] 2 0 true.
Proof.
  destruct (fromPlanar_rejects_planeWidth [0xAA; 0x55] 2 0 true) as (_ & H1 & H2);
    [lia|].
  split; [apply H1; lia|apply H2; reflexivity].
Defined.

(** C10, as amended.  [toPlanar] does not check [planeWidth]: with
    [planeWidth <= 0], for every content and every [planes] for which
    [content.length * planes] is above -8 and at most 2^53 - 1 (every plane
    count from 0 up, as long as the product is a safe integer), it raises
    nothing and returns a buffer of [content.length * planes / 8] bytes
    (truncated), where [fromPlanar] fails. *)
Theorem toPlanar_accepts_planeWidth content planes planeWidth byteOrderMSB :
  planeWidth ≤ 0 →
  - 8 < len content * planes ≤ 2 ^ 53 - 1 →
  (∃ out, toPlanar content planes planeWidth byteOrderMSB = inr out
          ∧ len out = Z.quot (len content * planes) 8)
  ∧ (∃ e, fromPlanar content planes planeWidth byteOrderMSB = inl e).
Proof.
  intros Hw [Hlow Hhigh]. split.
  - destruct (toPlanar_allocated content planes planeWidth byteOrderMSB Hlow)
      as (out & Hout & Hlen & _).
    eauto.
  - rewrite fromPlanar_throws by done. destruct (JS.new_Uint8Array _ _); eauto.
Qed.

Lemma toPlanar_accepts_planeWidth_witness :
  (∃ out, toPlanar [1; 2; 1; 2; 1; 2; 1; 2] 2 0 true = inr out
          ∧ len out = Z.quot (len [1; 2; 1; 2; 1; 2; 1; 2] * 2) 8)
  ∧ (∃ e, fromPlanar [1; 2; 1; 2; 1; 2; 1; 2] 2 0 true = inl e).
Proof.
  apply (toPlanar_accepts_planeWidth [1; 2; 1; 2; 1; 2; 1; 2] 2 0 true).
  - lia.
  - vm_compute. split; [reflexivity|discriminate].
Defined.

(** C10 as stated fails for a negative [planes]: the length of the buffer is
    negative and [new Uint8Array] throws [RangeError], for [planeWidth = 0]
    as for any other. *)
Lemma toPlanar_negative_planes_counterexample :
  0 ≤ 0
  ∧ toPlanar [1; 2; 3; 4; 5; 6; 7; 8] (-1) 0 true
    = inl JS.RangeError_invalid_typed_array_length
  ∧ ¬ ∃ out, toPlanar [1; 2; 3; 4; 5; 6; 7; 8] (-1) 0 true = inr out.
Proof.
  split; [lia|]. split; [vm_compute; reflexivity|].
  intros [out Hout]. vm_compute in Hout. discriminate.
Qed.

(** ** The planar codec: the range of the pixels *)

Lemma testbit_above x m q : 0 ≤ x < 2 ^ m → 0 ≤ m ≤ q → Z.testbit x q = false.
Proof.
  intros Hx Hq. rewrite <- (Z.mod_small x (2 ^ m)) by done.
  apply Z.mod_pow2_bits_high. lia.
Qed.

Lemma below_pow2 x m :
  0 ≤ x → 0 ≤ m → (∀ q, m ≤ q → Z.testbit x q = false) → x < 2 ^ m.
Proof.
  intros Hx Hm Hbits.
  assert (x = x mod 2 ^ m) as ->.
  { apply Z.bits_inj'. intros q Hq. rewrite Z.testbit_mod_pow2 by done.
    destruct (Z.ltb_spec q m); simpl; [done|]. by apply Hbits. }
  apply Z.mod_pos_bound. by apply Z.pow_pos_nonneg.
Qed.

(** One write of [fromPlanar] for plane [p] of [planes]: a pixel below
    [2 ^ min planes 8] stays below it. *)
Lemma fromPlanar_write_bound planes p data srcBit old :
  0 ≤ p < planes →
  0 ≤ old < 2 ^ Z.min planes 8 →
  0 ≤ JS.ToUint8 (JS.or (Some old) (JS.shl (JS.and (JS.sar data srcBit) 1) (Some p)))
    < 2 ^ Z.min planes 8.
Proof.
  intros Hp Hold. set (r := JS.ToUint8 _).
  pose proof (ToUint8_range (JS.or (Some old)
    (JS.shl (JS.and (JS.sar data srcBit) 1) (Some p)))) as Hr. fold r in Hr.
  split; [lia|].
  destruct (decide (8 ≤ planes)) as [Hbig|Hsmall].
  { rewrite Z.min_r by done. lia. }
  rewrite Z.min_l in * by lia.
  apply below_pow2; [lia|lia|]. intros q Hq. subst r.
  rewrite ToUint8_testbit by lia. case_bool_decide; [simpl|done].
  unfold JS.or. simpl. rewrite Z.lor_spec, !ToInt32_testbit by lia.
  rewrite (testbit_above old planes q) by lia. simpl.
  assert (∃ c : bool, JS.and (JS.sar data srcBit) 1 = Z.b2z c) as [c ->].
  { destruct (bit_extract_01 data srcBit) as [->| ->]; [by exists false|by exists true]. }
  rewrite shl_bit_testbit by lia. case_bool_decide; [lia|done].
Qed.

(** C6. For [planes >= 1] and [planeWidth > 0], [fromPlanar] returns, and
    every byte it returns is a palette index between 0 and [2^planes - 1]. *)
Theorem fromPlanar_palette_range content planes planeWidth byteOrderMSB :
  1 ≤ planes → 0 < planeWidth →
  ∃ out, fromPlanar content planes planeWidth byteOrderMSB = inr out
         ∧ Forall (λ v, 0 ≤ v ≤ 2 ^ planes - 1) out.
Proof.
  intros Hp Hw. unfold fromPlanar.
  rewrite new_Uint8Array_nonneg by (unfold len; lia).
  pose proof (ceil_div8_pos planeWidth Hw) as Hwb.
  case_decide; [lia|]. eexists. split; [done|].
  set (bounded := λ v : Z, 0 ≤ v < 2 ^ Z.min planes 8).
  set (final := JS.for_loop _ _ _ _ _ _).
  assert (Forall bounded (snd final)) as Hfinal.
  { subst final.
    apply (for_loop_preserves (λ st, Forall bounded (snd st))); [lia| |].
    - intros i [outpos out] Hi Hout. simpl in Hout. unfold fromPlanar_stride.
      set (plane := JS.rem _ _).
      assert (∃ p, plane = Some p ∧ 0 ≤ p < planes) as (p & -> & Hplane).
      { subst plane. unfold JS.rem. case_decide; [lia|]. eexists. split; [done|].
        apply Z.rem_bound_pos; [|lia]. apply Z.div_pos; lia. }
      set (inner := JS.for_loop _ _ _ _ _ _).
      assert (Forall bounded inner) as Hinner.
      { subst inner. apply (for_loop_preserves (Forall bounded)); [lia| |done].
        intros b o _ Ho. unfold fromPlanar_pixel. apply or_assign_Forall; [done|].
        intros old _ Hold. by apply fromPlanar_write_bound. }
      by destruct (JS.strict_eq _ _).
    - simpl. apply Forall_replicate. unfold bounded. split; [done|].
      apply Z.pow_pos_nonneg; lia. }
  eapply Forall_impl; [exact Hfinal|]. intros v [Hv0 Hv]. split; [done|].
  assert (2 ^ Z.min planes 8 ≤ 2 ^ planes); [|lia].
  apply Z.pow_le_mono_r; lia.
Qed.

Lemma fromPlanar_palette_range_witness :
  ∃ out, fromPlanar [0xAA; 0x55] 2 8 true = inr out
         ∧ Forall (λ v, 0 ≤ v ≤ 2 ^ 2 - 1) out.
Proof. apply (fromPlanar_palette_range [0xAA; 0x55] 2 8 true); lia. Defined.

(** ** The registry *)

Section registry.
Context (content : list Z).
Implicit Types (x B : Handler) (l before after : list Handler) (s : Search).

(** Up to the first definite match, [some] keeps the possible matches. *)
Lemma Array_some_no_definite l s :
  (∀ x, x ∈ l → identify x content ≠ DefiniteMatch) →
  Array_some (findHandler_cb content) l s
  = (false, {| handlers := handlers s
                 ++ filter (λ x, identify x content = PossibleMatch) l;
               consulted := consulted s ++ l |}).
Proof.
  revert s. induction l as [|x l IH]; intros s Hno; simpl.
  - rewrite !app_nil_r. by destruct s.
  - assert (identify x content ≠ DefiniteMatch) as Hx by (apply Hno; left).
    unfold findHandler_cb at 1.
    destruct (identify x content) eqn:Hid; [done| |].
    + rewrite IH by (intros y Hy; apply Hno; by right). simpl.
      rewrite filter_cons_False by congruence. by rewrite <- app_assoc.
    + rewrite IH by (intros y Hy; apply Hno; by right). simpl.
      rewrite filter_cons_True by done. by rewrite <- !app_assoc.
Qed.

Lemma Array_some_definite before B after s :
  (∀ x, x ∈ before → identify x content ≠ DefiniteMatch) →
  identify B content = DefiniteMatch →
  Array_some (findHandler_cb content) (before ++ B :: after) s
  = (true, {| handlers := [B]; consulted := consulted s ++ before ++ [B] |}).
Proof.
  revert s. induction before as [|x before IH]; intros s Hno HB; simpl.
  - unfold findHandler_cb. by rewrite HB.
  - assert (identify x content ≠ DefiniteMatch) as Hx by (apply Hno; left).
    unfold findHandler_cb at 1.
    destruct (identify x content) eqn:Hid; [done| |];
      rewrite IH by (try done; intros y Hy; apply Hno; by right); simpl;
      by rewrite <- app_assoc.
Qed.

(** C4. At the first handler [B] whose [identify] gives a definite match,
    [findHandler] returns [[B]] alone: the possible matches before [B] are
    dropped, and [identify] has been called on the handlers up to [B] and
    on none after it. *)
Theorem findHandler_short_circuit before B after :
  (∀ x, x ∈ before → identify x content ≠ DefiniteMatch) →
  identify B content = DefiniteMatch →
  findHandler (before ++ B :: after) content = [B]
  ∧ consulted (findHandler_search (before ++ B :: after) content) = before ++ [B].
Proof.
  intros Hno HB. unfold findHandler, findHandler_search.
  by rewrite Array_some_definite.
Qed.

(** C5. Without a definite match, [findHandler] returns the handlers whose
    [identify] gave a possible match, in registry order; none of them is a
    definite non-match. *)
Theorem findHandler_ambiguity l :
  (∀ x, x ∈ l → identify x content ≠ DefiniteMatch) →
  findHandler l content = filter (λ x, identify x content = PossibleMatch) l
  ∧ (∀ x, x ∈ findHandler l content → identify x content ≠ DefiniteNoMatch)
  ∧ ((∀ x, x ∈ l → identify x content ≠ PossibleMatch) → findHandler l content = []).
Proof.
  intros Hno. unfold findHandler, findHandler_search.
  rewrite Array_some_no_definite by done. simpl. split; [done|]. split.
  - intros x [Hx _]%list_elem_of_filter. congruence.
  - intros Hnone. induction l as [|x l IH]; [done|].
    rewrite filter_cons_False by (apply Hnone; left).
    apply IH; intros y Hy; [apply Hno|apply Hnone]; by right.
Qed.
End registry.

Lemma findHandler_short_circuit_witness :
  findHandler ([example_handler "A" PossibleMatch no_limits]
                 ++ example_handler "B" DefiniteMatch no_limits
                 :: [example_handler "C" DefiniteNoMatch no_limits]) []
  = [example_handler "B" DefiniteMatch no_limits]
  ∧ consulted (findHandler_search
       ([example_handler "A" PossibleMatch no_limits]
          ++ example_handler "B" DefiniteMatch no_limits
          :: [example_handler "C" DefiniteNoMatch no_limits]) [])
    = [example_handler "A" PossibleMatch no_limits]
        ++ [example_handler "B" DefiniteMatch no_limits].
Proof.
  apply (findHandler_short_circuit [] [example_handler "A" PossibleMatch no_limits]
           (example_handler "B" DefiniteMatch no_limits)
           [example_handler "C" DefiniteNoMatch no_limits]).
  - intros x Hx. apply list_elem_of_singleton in Hx. subst x. simpl. discriminate.
  - reflexivity.
Defined.

Lemma findHandler_ambiguity_witness :
  findHandler [example_handler "A" PossibleMatch no_limits;
               example_handler "B" PossibleMatch no_limits] []
  = [example_handler "A" PossibleMatch no_limits;
     example_handler "B" PossibleMatch no_limits].
Proof.
  destruct (findHandler_ambiguity []
              [example_handler "A" PossibleMatch no_limits;
               example_handler "B" PossibleMatch no_limits]) as [H _].
  - intros x Hx. apply elem_of_cons in Hx as [->|Hx]; [simpl; discriminate|].
    apply list_elem_of_singleton in Hx. subst x. simpl. discriminate.
  - rewrite H. reflexivity.
Defined.

(** ** The limits check *)

Section checkLimits.
Implicit Types (this : Handler) (w : World) (fs : list File) (lim : Limits).

(** The second [forEach] only writes to the debug channel. *)
Lemma checkLimits_nativeSize_frame fs w :
  ∃ warnings,
    fold_left checkLimits_nativeSize fs w
    = {| archive := archive w; debug_log := debug_log w ++ warnings |}.
Proof.
  revert w. induction fs as [|f fs IH]; intros w; simpl.
  - exists []. rewrite app_nil_r. by destruct w.
  - destruct (IH (checkLimits_nativeSize w f)) as [ws ->].
    unfold checkLimits_nativeSize.
    repeat case_bool_decide; simpl; eauto.
    exists (nativeSize_warning f (getContent f ()) :: ws).
    by rewrite <- app_assoc.
Qed.

(** The first [forEach] appends one issue per name that is too long. *)
Lemma checkLimits_filename_fold lim fs issues :
  fold_left (checkLimits_filename lim) fs issues
  = issues ++ ((λ f, filename_issue f (maxFilenameLen lim))
                 <$> filter (λ f, gt_limit (str_length (name f)) (maxFilenameLen lim)) fs).
Proof.
  revert issues. induction fs as [|f fs IH]; intros issues; simpl.
  - by rewrite app_nil_r.
  - rewrite IH. unfold checkLimits_filename at 1.
    destruct (gt_limit _ _) eqn:Hgt.
    + rewrite filter_cons_True by (rewrite Hgt; exact I). simpl. by rewrite <- app_assoc.
    + rewrite filter_cons_False by (rewrite Hgt; intros []). done.
Qed.

(** The issues of [checkLimits]: at most one about the file count, then one
    for each name that is too long. *)
Lemma checkLimits_issues this w :
  fst (checkLimits this w)
  = (if truthy (maxFileCount (limits (metadata this)))
        && gt_limit (len (files (archive w))) (maxFileCount (limits (metadata this)))
     then [file_count_issue (len (files (archive w)))
             (maxFileCount (limits (metadata this)))]
     else [])
    ++ (if truthy (maxFilenameLen (limits (metadata this)))
        then (λ f, filename_issue f (maxFilenameLen (limits (metadata this))))
               <$> filter (λ f, gt_limit (str_length (name f))
                                  (maxFilenameLen (limits (metadata this))))
                     (files (archive w))
        else []).
Proof.
  unfold checkLimits. simpl.
  destruct (truthy (maxFilenameLen _)); [|by rewrite app_nil_r].
  by rewrite checkLimits_filename_fold.
Qed.

Lemma prefix_append (s t : string) : String.prefix s (s +:+ t) = true.
Proof.
  induction s as [|a s IH]; simpl; [by destruct t|].
  unfold String.append; fold String.append.
  destruct (Ascii.ascii_dec a a); [done|congruence].
Qed.

Lemma filename_issue_kind f limit :
  is_file_count_issue (filename_issue f limit) = false
  ∧ is_filename_issue (filename_issue f limit) = true.
Proof.
  unfold is_file_count_issue, is_filename_issue.
  split; [lazy; reflexivity|apply prefix_append].
Qed.

Lemma file_count_issue_kind n limit :
  is_file_count_issue (file_count_issue n limit) = true
  ∧ is_filename_issue (file_count_issue n limit) = false.
Proof.
  unfold is_file_count_issue, is_filename_issue.
  split; [apply prefix_append|lazy; reflexivity].
Qed.

Lemma file_count_issue_text n m :
  file_count_issue n (Some m)
  = "There are " +:+ pretty n
      +:+ " files to save, but this archive format can only store up to "
      +:+ pretty m +:+ " files.".
Proof. unfold file_count_issue. do 2 f_equal. Qed.

Lemma filter_filename_issues (g : File → string) fs :
  (∀ f, is_file_count_issue (g f) = false) →
  filter (λ issue, is_file_count_issue issue) (g <$> fs) = [].
Proof.
  intros Hg. induction fs as [|f fs IH]; [done|]. simpl.
  rewrite filter_cons_False; [done|]. rewrite Hg. intros [].
Qed.
End checkLimits.

Section checkLimits_claims.
Implicit Types (this : Handler) (w : World).

(** C7, as amended.  When [maxFileCount] is set to a number other than 0:
    if the archive has more files than that, exactly one of the issues is
    about the file count, and it names both numbers (it is the only issue
    when no filename limit is set); otherwise no issue is about the file
    count. *)
Theorem checkLimits_file_count this w m :
  maxFileCount (limits (metadata this)) = Some m → m ≠ 0 →
  (m < len (files (archive w)) →
     filter (λ issue, is_file_count_issue issue) (fst (checkLimits this w))
     = ["There are " +:+ pretty (len (files (archive w)))
          +:+ " files to save, but this archive format can only store up to "
          +:+ pretty m +:+ " files."]
     ∧ (maxFilenameLen (limits (metadata this)) = None →
        fst (checkLimits this w)
        = ["There are " +:+ pretty (len (files (archive w)))
             +:+ " files to save, but this archive format can only store up to "
             +:+ pretty m +:+ " files."]))
  ∧ (len (files (archive w)) ≤ m →
     filter (λ issue, is_file_count_issue issue) (fst (checkLimits this w)) = []).
Proof.
  intros Hm Hm0. rewrite checkLimits_issues, Hm. simpl.
  rewrite bool_decide_true by done. simpl.
  rewrite <- file_count_issue_text. split.
  - intros Hgt. rewrite bool_decide_true by done. split.
    + rewrite filter_app, filter_cons_True
        by (by rewrite (proj1 (file_count_issue_kind _ _))).
      rewrite filter_nil. simpl. f_equal.
      destruct (truthy _); [|done].
      apply filter_filename_issues. intros f. apply filename_issue_kind.
    + by intros ->.
  - intros Hle. rewrite bool_decide_false by lia. simpl.
    destruct (truthy _); [|done].
    apply filter_filename_issues. intros f. apply filename_issue_kind.
Qed.

(** C9. A limit set to 0 is not checked.  With [maxFileCount = 0] the
    result is the one for a handler without that limit, and no issue is
    about the file count, however many files there are; with
    [maxFilenameLen = 0] the result is the one for a handler without that
    limit, and no issue is about a filename. *)
Theorem checkLimits_zero_is_unbounded this this' w :
  (maxFileCount (limits (metadata this)) = Some 0 →
   maxFileCount (limits (metadata this')) = None →
   maxFilenameLen (limits (metadata this')) = maxFilenameLen (limits (metadata this)) →
   checkLimits this w = checkLimits this' w
   ∧ ∀ issue, issue ∈ fst (checkLimits this w) → is_file_count_issue issue = false)
  ∧ (maxFilenameLen (limits (metadata this)) = Some 0 →
     maxFilenameLen (limits (metadata this')) = None →
     maxFileCount (limits (metadata this')) = maxFileCount (limits (metadata this)) →
     checkLimits this w = checkLimits this' w
     ∧ ∀ issue, issue ∈ fst (checkLimits this w) → is_filename_issue issue = false).
Proof.
  split.
  - intros H0 Hnone Hsame. split.
    + unfold checkLimits. rewrite H0, Hnone, Hsame. simpl. f_equal.
      destruct (truthy _); [|done].
      rewrite !checkLimits_filename_fold. by rewrite ?Hsame.
    + intros issue. rewrite checkLimits_issues, H0. simpl.
      destruct (truthy _); [|by intros ?%elem_of_nil].
      intros (f & -> & _)%list_elem_of_fmap. apply filename_issue_kind.
  - intros H0 Hnone Hsame. split.
    + unfold checkLimits. rewrite H0, Hnone, Hsame. simpl. reflexivity.
    + intros issue. rewrite checkLimits_issues, H0. simpl. rewrite app_nil_r.
      destruct (_ && _); [|by intros ?%elem_of_nil].
      intros ->%list_elem_of_singleton. apply file_count_issue_kind.
Qed.
End checkLimits_claims.

(** ** The limits check and the code it calls *)

Section checkLimits_calls.
Context {Heap Ref : Type} (st : Store Heap Ref).
Implicit Types (this : Handler) (h : Heap) (r : Ref).

Lemma same_collection_refl h : same_collection st h h.
Proof. by repeat split. Qed.

Lemma same_collection_trans h1 h2 h3 :
  same_collection st h1 h2 → same_collection st h2 h3 → same_collection st h1 h3.
Proof.
  intros (Hf & Hn & Hs) (Hf' & Hn' & Hs'). split; [congruence|].
  split; intros r; [rewrite Hn'|rewrite Hs']; done.
Qed.

(** When the calls return and leave the collection alone, so does the loop
    over the entries. *)
Lemma forEach_files_frame h :
  (∀ r h1, nativeSize_of st h1 r = 0 →
     ∃ content h2, call_getContent st r h1 = (inr content, h2)
                   ∧ same_collection st h1 h2) →
  (∀ msg h1, ∃ h2, call_Debug_warn st msg h1 = (inr (), h2)
                   ∧ same_collection st h1 h2) →
  ∀ n k h1, same_collection st h h1 →
    ∃ h2, forEach_files st (nativeSize_cb st) n k h1 = (inr (), h2)
          ∧ same_collection st h h2.
Proof.
  intros Hget Hwarn n. induction n as [|n IH]; intros k h1 Hsame; simpl; [eauto|].
  destruct (files_of st h1 !! k) as [r|]; [|by apply IH].
  unfold nativeSize_cb. case_bool_decide as Hsize; [|by apply IH].
  destruct (Hget r h1 Hsize) as (content & h2 & -> & Hsame2).
  case_bool_decide.
  - destruct (Hwarn (nativeSize_warning_for (name_of st h2 r) content) h2)
      as (h3 & -> & Hsame3).
    apply IH. eauto using same_collection_trans.
  - apply IH. eauto using same_collection_trans.
Qed.

(** No entry of size 0: the loop calls nothing. *)
Lemma forEach_files_no_call h :
  (∀ r, r ∈ files_of st h → nativeSize_of st h r ≠ 0) →
  ∀ n k, forEach_files st (nativeSize_cb st) n k h = (inr (), h).
Proof.
  intros Hsizes n. induction n as [|n IH]; intros k; simpl; [done|].
  destruct (files_of st h !! k) as [r|] eqn:Hr; [|done].
  unfold nativeSize_cb. rewrite bool_decide_false; [done|].
  apply Hsizes. by eapply list_elem_of_lookup_2.
Qed.

(** C8, as amended.  [checkLimits] raises nothing and changes nothing of
    its own: the only code it calls is [getContent], on the entries whose
    [nativeSize] is 0, and [Debug.warn].  If these calls return and leave
    the collection as it is, [checkLimits] returns its issues and the
    collection is the same before and after; and for a collection without
    an entry of size 0 it returns its issues in the store it started in,
    whatever [getContent] and [Debug.warn] would do. *)
Theorem checkLimits_frame this h :
  ((∀ r h1, nativeSize_of st h1 r = 0 →
      ∃ content h2, call_getContent st r h1 = (inr content, h2)
                    ∧ same_collection st h1 h2) →
   (∀ msg h1, ∃ h2, call_Debug_warn st msg h1 = (inr (), h2)
                    ∧ same_collection st h1 h2) →
   ∃ issues h', checkLimits_in_store st this h = (inr issues, h')
                ∧ same_collection st h h')
  ∧ ((∀ r, r ∈ files_of st h → nativeSize_of st h r ≠ 0) →
     ∃ issues, checkLimits_in_store st this h = (inr issues, h)).
Proof.
  split.
  - intros Hget Hwarn. unfold checkLimits_in_store.
    destruct (forEach_files_frame h Hget Hwarn (length (files_of st h)) 0 h
                (same_collection_refl h)) as (h' & -> & Hsame).
    eauto.
  - intros Hsizes. unfold checkLimits_in_store.
    rewrite forEach_files_no_call by done. eauto.
Qed.
End checkLimits_calls.

(** On the store of [checkLimits], the two functions are one: the same
    issues, the same warnings. *)
Lemma forEach_files_pure fs :
  ∀ n k w, files (archive w) = fs →
    forEach_files pure_store (nativeSize_cb pure_store) n k w
    = (inr (), fold_left checkLimits_nativeSize (take n (drop k fs)) w).
Proof.
  intros n. induction n as [|n IH]; intros k w Hfs; simpl; [done|].
  change (files_of pure_store w) with (files (archive w)). rewrite Hfs.
  destruct (fs !! k) as [f|] eqn:Hf.
  - rewrite (drop_S _ _ _ Hf). simpl.
    assert (nativeSize_cb pure_store f w = (inr (), checkLimits_nativeSize w f)) as ->.
    { unfold nativeSize_cb, checkLimits_nativeSize. simpl.
      repeat case_bool_decide; done. }
    apply IH. rewrite <- Hfs. unfold checkLimits_nativeSize.
    repeat case_bool_decide; done.
  - rewrite drop_ge by (by apply lookup_ge_None). rewrite take_nil.
    rewrite IH by done.
    rewrite drop_ge by (apply lookup_ge_None in Hf; lia). by rewrite take_nil.
Qed.

Lemma checkLimits_in_pure_store this w :
  checkLimits_in_store pure_store this w
  = (inr (fst (checkLimits this w)), snd (checkLimits this w)).
Proof.
  unfold checkLimits_in_store.
  rewrite (forEach_files_pure (files (archive w))) by done.
  change (files_of pure_store w) with (files (archive w)).
  rewrite drop_0, firstn_all. reflexivity.
Qed.

Lemma checkLimits_frame_witness :
  ∃ issues w',
    checkLimits_in_store pure_store
      (example_handler "x" DefiniteNoMatch
         {| maxFilenameLen := Some 12; maxFileCount := Some 1 |})
      (example_world [{| name := "a"; nativeSize := 0; getContent := λ _, [1] |};
                      example_file "b" [2]])
    = (inr issues, w')
    ∧ same_collection pure_store
        (example_world [{| name := "a"; nativeSize := 0; getContent := λ _, [1] |};
                        example_file "b" [2]]) w'.
Proof.
  apply (checkLimits_frame pure_store).
  - intros f w _. exists (getContent f ()), w. split; [reflexivity|].
    apply same_collection_refl.
  - intros msg w. exists (Debug_warn msg w). split; [reflexivity|].
    repeat split.
Defined.

(** C8 as stated fails when an entry of size 0 has a [getContent] that
    throws, or one that changes the collection: [checkLimits] raises in the
    first case and leaves the collection changed in the second. *)
Lemma checkLimits_getContent_counterexample :
  checkLimits_in_store throwing_store ImageHandler () = (inl "read error", ())
  ∧ files_of emptying_store [1%nat; 2%nat] = [1%nat; 2%nat]
  ∧ files_of emptying_store
      (snd (checkLimits_in_store emptying_store ImageHandler [1%nat; 2%nat])) = [].
Proof. repeat split. Qed.

(** The example of the specification: five entries against [maxFileCount = 3]
    give one issue, which names 5 and 3; one entry with a name of 20
    characters against [maxFilenameLen = 12] gives one issue, which names the
    entry. *)
Example checkLimits_examples :
  fst (checkLimits
         (example_handler "x" DefiniteNoMatch
            {| maxFilenameLen := None; maxFileCount := Some 3 |})
         (example_world ((λ n, example_file n [1]) <$> ["a"; "b"; "c"; "d"; "e"])))
  = ["There are 5 files to save, but this archive format can only store up to 3 files."]
  ∧ fst (checkLimits
           (example_handler "x" DefiniteNoMatch
              {| maxFilenameLen := Some 12; maxFileCount := None |})
           (example_world [example_file "abcdefghijklmnopqrst" [1]]))
    = ["Filename length is 20, max is 12: abcdefghijklmnopqrst"].
Proof. split; vm_compute; reflexivity. Qed.

Lemma checkLimits_file_count_witness :
  (3 < len (files (archive (example_world
              ((λ n, example_file n [1]) <$> ["a"; "b"; "c"; "d"; "e"])))))
  ∧ filter (λ issue, is_file_count_issue issue)
      (fst (checkLimits
              (example_handler "x" DefiniteNoMatch
                 {| maxFilenameLen := Some 12; maxFileCount := Some 3 |})
              (example_world ((λ n, example_file n [1]) <$> ["a"; "b"; "c"; "d"; "e"]))))
    = ["There are " +:+ pretty 5
         +:+ " files to save, but this archive format can only store up to "
         +:+ pretty 3 +:+ " files."].
Proof.
  assert (3 < len (files (archive (example_world
            ((λ n, example_file n [1]) <$> ["a"; "b"; "c"; "d"; "e"]))))) as Hgt
    by (vm_compute; reflexivity).
  split; [exact Hgt|].
  destruct (checkLimits_file_count
              (example_handler "x" DefiniteNoMatch
                 {| maxFilenameLen := Some 12; maxFileCount := Some 3 |})
              (example_world ((λ n, example_file n [1]) <$> ["a"; "b"; "c"; "d"; "e"]))
              3) as [H _]; [reflexivity|lia|].
  destruct (H Hgt) as [Hone _]. exact Hone.
Defined.

(** C7 as stated fails when the limit is set to 0: one file exceeds the
    limit, and no issue is given. *)
Lemma checkLimits_zero_limit_counterexample :
  maxFileCount (limits (metadata
      (example_handler "x" DefiniteNoMatch
         {| maxFilenameLen := None; maxFileCount := Some 0 |}))) = Some 0
  ∧ 0 < len (files (archive (example_world [example_file "a" [1]])))
  ∧ fst (checkLimits
           (example_handler "x" DefiniteNoMatch
              {| maxFilenameLen := None; maxFileCount := Some 0 |})
           (example_world [example_file "a" [1]])) = [].
Proof. repeat split. Qed.

Lemma checkLimits_zero_is_unbounded_witness :
  checkLimits
    (example_handler "x" DefiniteNoMatch
       {| maxFilenameLen := Some 12; maxFileCount := Some 0 |})
    (example_world [example_file "a" [1]; example_file "b" [2]])
  = checkLimits
      (example_handler "y" DefiniteNoMatch
         {| maxFilenameLen := Some 12; maxFileCount := None |})
      (example_world [example_file "a" [1]; example_file "b" [2]]).
Proof.
  destruct (checkLimits_zero_is_unbounded
              (example_handler "x" DefiniteNoMatch
                 {| maxFilenameLen := Some 12; maxFileCount := Some 0 |})
              (example_handler "y" DefiniteNoMatch
                 {| maxFilenameLen := Some 12; maxFileCount := None |})
              (example_world [example_file "a" [1]; example_file "b" [2]])) as [H _].
  destruct H as [Heq _]; [reflexivity|reflexivity|reflexivity|]. exact Heq.
Defined.

(** ** The planar codec: the round trip *)

(** *** Quotients and remainders of the indices *)

(** [x = j * d + r] with [0 <= r < d] determines quotient and remainder. *)
Lemma div_mod_unique d j r x :
  0 ≤ r < d → x = j * d + r → x / d = j ∧ x mod d = r.
Proof.
  intros Hr ->. split.
  - symmetry. apply (Z.div_unique _ d j r); [lia|lia].
  - symmetry. apply (Z.mod_unique _ d j r); [lia|lia].
Qed.

Lemma div_mod_eq d x : 0 < d → x = (x / d) * d + x mod d ∧ 0 ≤ x mod d < d.
Proof.
  intros Hd. split; [|by apply Z.mod_pos_bound].
  pose proof (Z.div_mod x d). lia.
Qed.

Lemma div_mod_unique_block W j x :
  0 < W → (j * W ≤ x < j * W + W ↔ x / W = j).
Proof.
  intros HW. split; intros H.
  - apply (div_mod_unique W j (x - j * W)); lia.
  - destruct (div_mod_eq W x HW). subst j. lia.
Qed.

Lemma plane_decompose P n j q :
  0 < P → 0 ≤ q < P → (j * P + q = n ↔ j = n / P ∧ q = n mod P).
Proof.
  intros HP Hq. split.
  - intros H. destruct (div_mod_unique P j q n); [done|done|]. done.
  - intros [-> ->]. destruct (div_mod_eq P n HP). lia.
Qed.

Lemma next_block P n W :
  0 < P → 0 ≤ n →
  ((n + 1) / P) * W = if bool_decide (n mod P = P - 1) then (n / P) * W + W else (n / P) * W.
Proof.
  intros HP Hn. destruct (div_mod_eq P n HP) as [Hn1 Hn2]. case_bool_decide.
  - destruct (div_mod_unique P (n / P + 1) 0 (n + 1)) as [-> _]; lia.
  - destruct (div_mod_unique P (n / P) (n mod P + 1) (n + 1)) as [-> _]; lia.
Qed.

Lemma pixel_unique wb j c u i :
  0 < wb → 0 ≤ c < wb → 0 ≤ u < 8 →
  i = j * (8 * wb) + 8 * c + u →
  i / (8 * wb) = j ∧ (i / 8) mod wb = c ∧ i mod 8 = u ∧ i mod (8 * wb) = 8 * c + u.
Proof.
  intros Hwb Hc Hu Hi.
  destruct (div_mod_unique (8 * wb) j (8 * c + u) i) as [H1 H2]; [lia|lia|].
  destruct (div_mod_unique 8 (j * wb + c) u i) as [H3 H4]; [lia|lia|].
  destruct (div_mod_unique wb j c (i / 8)) as [H5 H6]; [lia|lia|].
  done.
Qed.

Lemma pixel_decompose wb i :
  0 < wb →
  i = (i / (8 * wb)) * (8 * wb) + 8 * ((i / 8) mod wb) + i mod 8.
Proof.
  intros Hwb.
  destruct (div_mod_eq 8 i) as [H1 H2]; [lia|].
  destruct (div_mod_eq wb (i / 8)) as [H3 H4]; [lia|].
  rewrite <- Z.div_div by lia. lia.
Qed.

Lemma byte_unique P wb j b c y :
  0 < wb → 0 < P → 0 ≤ b < P → 0 ≤ c < wb →
  y = j * (P * wb) + c + b * wb →
  y / (P * wb) = j ∧ (y / wb) mod P = b ∧ y mod wb = c ∧ y / wb = j * P + b.
Proof.
  intros Hwb HP Hb Hc Hy.
  destruct (div_mod_unique wb (j * P + b) c y) as [H1 H2]; [lia|lia|].
  destruct (div_mod_unique P j b (y / wb)) as [H3 H4]; [lia|lia|].
  split; [|done].
  rewrite (Z.mul_comm P wb), <- Z.div_div by lia. exact H3.
Qed.

Lemma byte_decompose P wb y :
  0 < wb → 0 < P →
  y = (y / (P * wb)) * (P * wb) + ((y / wb) mod P) * wb + y mod wb.
Proof.
  intros Hwb HP.
  destruct (div_mod_eq wb y) as [H1 H2]; [lia|].
  destruct (div_mod_eq P (y / wb)) as [H3 H4]; [lia|].
  rewrite (Z.mul_comm P wb), <- Z.div_div by lia. lia.
Qed.

Lemma byte_decompose_plane P wb y :
  0 < wb → 0 < P →
  y = y / (P * wb) * (P * wb) + y mod wb + (y / wb) mod P * wb.
Proof. intros Hwb HP. pose proof (byte_decompose P wb y Hwb HP). lia. Qed.

Lemma bit_index_range msb b : 0 ≤ b → 0 ≤ bit_index msb b < 8.
Proof.
  intros Hb. unfold bit_index. rewrite Z.rem_mod_nonneg by lia.
  pose proof (Z.mod_pos_bound b 8). destruct msb; lia.
Qed.

Lemma bit_index_mod msb b : 0 ≤ b → bit_index msb b = bit_index msb (b mod 8).
Proof.
  intros Hb. unfold bit_index.
  pose proof (Z.mod_pos_bound b 8).
  rewrite !Z.rem_mod_nonneg by lia. by rewrite Z.mod_mod by lia.
Qed.

(** The two bit orders are their own inverse on 0..7. *)
Lemma bit_index_involutive msb u : 0 ≤ u < 8 → bit_index msb (bit_index msb u) = u.
Proof.
  intros Hu. unfold bit_index. destruct msb.
  - rewrite (Z.rem_small u 8) by lia. rewrite Z.rem_small by lia. lia.
  - rewrite (Z.rem_small u 8) by lia. by rewrite Z.rem_small by lia.
Qed.

(** *** What a write does to the bits of the array *)

Lemma byte_at_lookup (a : list Z) x :
  0 ≤ x → byte_at a x = default 0 (a !! Z.to_nat x).
Proof. intros Hx. unfold byte_at, JS.get. by case_decide. Qed.

Lemma or_assign_testbit out k v x q :
  0 ≤ x < len out → 0 ≤ q →
  Z.testbit (byte_at (JS.or_assign out (Some k) v) x) q
  = if decide (x = k)
    then bool_decide (q < 8) && (Z.testbit (byte_at out x) q || Z.testbit v q)
    else Z.testbit (byte_at out x) q.
Proof.
  intros Hx Hq. unfold len in Hx. unfold JS.or_assign.
  destruct (decide (0 ≤ k)) as [Hk|Hk]; [|case_decide; [lia|done]].
  rewrite !byte_at_lookup by lia. case_decide as Hxk.
  - subst k. rewrite list_lookup_insert_eq by lia. simpl.
    rewrite ToUint8_testbit by done. case_bool_decide; [simpl|done].
    unfold JS.or. by rewrite Z.lor_spec, !ToInt32_testbit by lia.
  - rewrite list_lookup_insert_ne; [done|]. intros ?%Z2Nat.inj; lia.
Qed.

(** *** Decoding *)

Section decode.
Context (content : list Z) (planes wb : Z) (byteOrderMSB : bool).
Context (Hplanes : 1 ≤ planes ≤ 8) (Hwb : 0 < wb < 2 ^ 32).

Local Abbreviation bit := (fromPlanar_bit content planes wb byteOrderMSB).
Local Abbreviation row_bit := (fromPlanar_row_bit content planes wb byteOrderMSB).

(** The inner loop on stride [n] adds the row of that stride. *)
Lemma fromPlanar_row n out N :
  0 ≤ n → len out = N →
  (∀ x q, 0 ≤ x < N → 0 ≤ q → Z.testbit (byte_at out x) q = bit n x q) →
  let out' :=
    JS.for_loop (Z.to_nat (8 * wb)) 0 (8 * wb) 1
      (fromPlanar_pixel content byteOrderMSB (n * wb) (Some (n mod planes))
         (n / planes * (8 * wb))) out in
  len out' = N
  ∧ ∀ x q, 0 ≤ x < N → 0 ≤ q →
      Z.testbit (byte_at out' x) q = bit n x q || row_bit n (8 * wb) x q.
Proof.
  intros Hn Hlen Hbits out'.
  destruct (for_loop_rule
    (λ b o, 0 ≤ b ∧ len o = N
            ∧ ∀ x q, 0 ≤ x < N → 0 ≤ q →
                Z.testbit (byte_at o x) q = bit n x q || row_bit n b x q)
    (8 * wb) 1
    (fromPlanar_pixel content byteOrderMSB (n * wb) (Some (n mod planes))
       (n / planes * (8 * wb)))) with (fuel := Z.to_nat (8 * wb)) (i := 0) (s := out)
    as (b' & Hb1 & Hb2 & Hb0 & Hlen' & Hbits'); [lia| |lia| |].
  - intros b o Hb (Hb0 & Hleno & Hbitso). split; [lia|].
    unfold fromPlanar_pixel. split; [unfold len; by rewrite or_assign_length|].
    intros x q Hx Hq. rewrite or_assign_testbit by lia.
    rewrite Hbitso by done.
    pose proof (Z.mod_pos_bound n planes) as Hp.
    pose proof (bit_index_range byteOrderMSB b Hb0) as Hsrc.
    change (if byteOrderMSB then 7 - Z.rem b 8 else Z.rem b 8)
      with (bit_index byteOrderMSB b).
    rewrite bit_extract by lia.
    assert (JS.div8_uint32 b = b / 8) as ->.
    { unfold JS.div8_uint32, JS.ToUint32. apply Z.mod_small.
      split; [apply Z.div_pos; lia|]. apply Z.div_lt_upper_bound; lia. }
    fold (byte_at content (n * wb + b / 8)).
    unfold fromPlanar_row_bit. case_decide as Hxb.
    + replace (x - n / planes * (8 * wb)) with b by lia.
      destruct (decide (q < 8)) as [Hq8|Hq8].
      * rewrite (bool_decide_true (q < 8)) by done.
        rewrite shl_bit_testbit by lia. simpl.
        rewrite (bool_decide_false (_ ∧ _ ≤ x < _ + b)) by lia. simpl.
        rewrite orb_false_r.
        destruct (decide (q = n mod planes)).
        -- rewrite (bool_decide_true (q = _)), bool_decide_true by lia. done.
        -- rewrite (bool_decide_false (q = _)), bool_decide_false by lia. done.
      * rewrite (bool_decide_false (q < 8)) by done. simpl.
        unfold fromPlanar_bit. rewrite !bool_decide_false by lia. done.
    + f_equal. f_equal. apply bool_decide_ext. lia.
  - split; [lia|]. split; [done|]. intros x q Hx Hq. rewrite Hbits by done.
    unfold fromPlanar_row_bit. rewrite bool_decide_false by lia.
    by rewrite orb_false_r.
  - assert (b' = 8 * wb) as -> by lia. done.
Qed.

(** After a whole stride the invariant has moved to the next one. *)
Lemma fromPlanar_bit_succ n x q :
  0 ≤ n → 0 ≤ x → 0 ≤ q →
  bit n x q || row_bit n (8 * wb) x q = bit (n + 1) x q.
Proof.
  intros Hn Hx Hq. unfold fromPlanar_bit, fromPlanar_row_bit.
  destruct (div_mod_eq planes n) as [Hn1 Hn2]; [lia|].
  destruct (div_mod_eq (8 * wb) x) as [Hx1 Hx2]; [lia|].
  destruct (decide (q < planes ∧ x / (8 * wb) * planes + q < n)) as [Hold|Hold].
  { rewrite !(bool_decide_true (q < planes ∧ _)) by lia. simpl.
    rewrite bool_decide_false; [by rewrite orb_false_r|].
    intros [-> Hrange]. apply div_mod_unique_block in Hrange; lia. }
  rewrite (bool_decide_false (q < planes ∧ _ < n)) by done. simpl.
  destruct (decide (q < planes ∧ x / (8 * wb) * planes + q = n)) as [[Hq' Hnew]|Hnew].
  - pose proof Hnew as Hsum.
    apply plane_decompose in Hnew as [Hj Hp]; [|lia|lia].
    assert (x mod (8 * wb) = x - n / planes * (8 * wb)) as Hm
      by (rewrite <- Hj; lia).
    rewrite (bool_decide_true (q < planes ∧ _)) by lia.
    rewrite bool_decide_true
      by (split; [done|]; apply div_mod_unique_block; [lia|done]).
    simpl. by rewrite Hm, Hsum.
  - rewrite (bool_decide_false (q < planes ∧ _)) by lia.
    rewrite bool_decide_false; [done|].
    intros [-> Hrange]. apply div_mod_unique_block in Hrange; [|lia].
    apply Hnew. split; [lia|]. apply plane_decompose; [lia|lia|done].
Qed.

(** The outer loop, on a content of [k] blocks of [planes * wb] bytes. *)
Lemma fromPlanar_loop k out0 N :
  0 ≤ k → len content = k * (planes * wb) →
  len out0 = N → (∀ x, byte_at out0 x = 0) →
  let final :=
    JS.for_loop (length content) 0 (len content) wb
      (fromPlanar_stride content planes (8 * wb) byteOrderMSB wb) (0, out0) in
  len (snd final) = N
  ∧ ∀ x q, 0 ≤ x < N → 0 ≤ q →
      Z.testbit (byte_at (snd final) x) q = bit (k * planes) x q.
Proof.
  intros Hk Hlen Hlen0 Hzero. cbv zeta.
  destruct (for_loop_rule
    (λ i st, ∃ n, 0 ≤ n ∧ i = n * wb ∧ fst st = n / planes * (8 * wb)
                  ∧ len (snd st) = N
                  ∧ ∀ x q, 0 ≤ x < N → 0 ≤ q →
                      Z.testbit (byte_at (snd st) x) q = bit n x q)
    (len content) wb
    (fromPlanar_stride content planes (8 * wb) byteOrderMSB wb))
    with (fuel := length content) (i := 0) (s := (0, out0))
    as (i' & Hi1 & Hi2 & n & Hn & -> & _ & Hlen' & Hbits'); [lia| |unfold len; lia| |].
  - intros i [outpos out] Hi (n & Hn & -> & Hpos & Hleno & Hbitso).
    simpl in Hpos, Hleno, Hbitso. subst outpos.
    exists (n + 1). split; [lia|]. split; [lia|].
    unfold fromPlanar_stride. rewrite Z.div_mul by lia.
    unfold JS.rem. case_decide; [lia|]. rewrite Z.rem_mod_nonneg by lia.
    destruct (fromPlanar_row n out N Hn Hleno Hbitso) as [Hlenr Hbitsr].
    rewrite next_block by lia. unfold JS.strict_eq.
    set (out' := JS.for_loop _ _ _ _ _ _) in *.
    assert (∀ x q, 0 ≤ x < N → 0 ≤ q →
              Z.testbit (byte_at out' x) q = bit (n + 1) x q) as Hnext.
    { intros x q Hx Hq. rewrite Hbitsr by done. apply fromPlanar_bit_succ; lia. }
    destruct (decide (n mod planes = planes - 1)) as [Hlast|Hlast].
    + rewrite !bool_decide_true by (done || congruence). done.
    + rewrite !bool_decide_false by (done || congruence). done.
  - exists 0. simpl. split; [done|]. split; [done|].
    split; [by rewrite Z.div_0_l by lia|]. split; [done|].
    intros x q Hx Hq. rewrite Hzero, Z.bits_0. unfold fromPlanar_bit.
    rewrite bool_decide_false; [done|].
    assert (0 ≤ x / (8 * wb)) by (apply Z.div_pos; lia). nia.
  - assert (n = k * planes) as -> by nia. done.
Qed.

(** What [fromPlanar] returns on such a content. *)
Lemma fromPlanar_decodes k :
  0 ≤ k → len content = k * (planes * wb) →
  ∃ linear,
    fromPlanar content planes (8 * wb) byteOrderMSB = inr linear
    ∧ len linear = k * (8 * wb)
    ∧ ∀ x q, 0 ≤ x < k * (8 * wb) → 0 ≤ q →
        Z.testbit (byte_at linear x) q
        = bool_decide (q < planes)
          && Z.testbit
               (byte_at content
                  ((x / (8 * wb) * planes + q) * wb + x mod (8 * wb) / 8))
               (bit_index byteOrderMSB (x mod (8 * wb))).
Proof.
  intros Hk Hlen. unfold fromPlanar.
  rewrite new_Uint8Array_nonneg by (unfold len; lia).
  rewrite ceil_div8_mul. case_decide; [lia|].
  assert (len content * 8 / planes = k * (8 * wb)) as ->.
  { rewrite Hlen. replace (k * (planes * wb) * 8) with (k * (8 * wb) * planes) by lia.
    apply Z.div_mul. lia. }
  eexists. split; [done|].
  destruct (fromPlanar_loop k (replicate (Z.to_nat (k * (8 * wb))) 0) (k * (8 * wb)))
    as [Hlenf Hbits]; [done|done| | |].
  - unfold len. rewrite length_replicate. lia.
  - intros x. unfold byte_at, JS.get. case_decide; [|done].
    destruct (replicate _ _ !! _) eqn:Hl; [|done].
    by apply lookup_replicate in Hl as [-> _].
  - split; [exact Hlenf|]. intros x q Hx Hq. rewrite Hbits by done.
    unfold fromPlanar_bit. f_equal. apply bool_decide_ext.
    assert (x / (8 * wb) < k) by (apply Z.div_lt_upper_bound; lia).
    split; [tauto|]. intros Hq'. split; [done|]. nia.
Qed.
End decode.

(** *** Encoding *)

Section encode.
Context (content : list Z) (planes wb : Z) (byteOrderMSB : bool).
Context (Hplanes : 1 ≤ planes ≤ 8) (Hwb : 0 < wb) (Hsize : len content ≤ 2 ^ 34).

Local Abbreviation bit := (toPlanar_bit content planes wb byteOrderMSB).
Local Abbreviation pixel_of := (toPlanar_pixel_of planes wb byteOrderMSB).

(** The byte and the bit that plane [b] of pixel [i] is written to. *)
Lemma toPlanar_target i b y q :
  0 ≤ i → 0 ≤ q < 8 → 0 ≤ b < planes →
  pixel_of y q = i ∧ (y / wb) mod planes = b
  ↔ y = i / (8 * wb) * (planes * wb) + (i / 8) mod wb + b * wb
    ∧ q = bit_index byteOrderMSB i.
Proof.
  intros Hi Hq Hb. unfold toPlanar_pixel_of.
  pose proof (bit_index_range byteOrderMSB q (proj1 Hq)) as Hu.
  split.
  - intros [Hpix Hpl].
    pose proof (Z.mod_pos_bound y wb Hwb) as Hc.
    destruct (pixel_unique wb (y / (planes * wb)) (y mod wb)
                (bit_index byteOrderMSB q) i) as (Hj & Hc' & Hu' & _);
      [lia|lia|lia|lia|].
    split.
    + rewrite Hj, Hc'. rewrite <- Hpl. apply byte_decompose_plane; lia.
    + rewrite bit_index_mod, Hu' by done. by rewrite bit_index_involutive.
  - intros [-> ->].
    pose proof (Z.mod_pos_bound (i / 8) wb Hwb) as Hc.
    pose proof (Z.mod_pos_bound i 8) as Hi8.
    destruct (byte_unique planes wb (i / (8 * wb)) b ((i / 8) mod wb)
                (i / (8 * wb) * (planes * wb) + (i / 8) mod wb + b * wb))
      as (-> & -> & -> & _); [lia|lia|lia|lia|lia|].
    split; [|done].
    rewrite (bit_index_mod _ i), bit_index_involutive by lia.
    symmetry. apply pixel_decompose. lia.
Qed.

Lemma toPlanar_bit_step i b y q :
  0 ≤ i → 0 ≤ q → 0 ≤ b < planes →
  bit i (b + 1) y q
  = bit i b y q
    || bool_decide (y = i / (8 * wb) * (planes * wb) + (i / 8) mod wb + b * wb
                    ∧ q = bit_index byteOrderMSB i)
       && Z.testbit (byte_at content i) b.
Proof.
  intros Hi Hq Hb. unfold toPlanar_bit.
  pose proof (bit_index_range byteOrderMSB i Hi) as Hpb.
  pose proof (Z.mod_pos_bound (y / wb) planes) as Hpl.
  destruct (decide (q < 8)) as [Hq8|Hq8].
  2:{ rewrite !(bool_decide_false (q < 8 ∧ _)) by lia.
      rewrite bool_decide_false by lia. done. }
  pose proof (toPlanar_target i b y q Hi (conj Hq Hq8) Hb) as Htarget.
  destruct (decide (pixel_of y q = i ∧ (y / wb) mod planes = b)) as [[Hpix Hplb]|Hno].
  - rewrite (bool_decide_true (_ ∧ q = _)) by (apply Htarget; done).
    rewrite (bool_decide_true (q < 8 ∧ (_ ∨ (_ ∧ _ < b + 1)))) by lia.
    rewrite (bool_decide_false (q < 8 ∧ (_ ∨ (_ ∧ _ < b)))) by lia.
    simpl. by rewrite Hpix, Hplb.
  - rewrite (bool_decide_false (_ ∧ q = _)) by (rewrite <- Htarget; done).
    simpl. rewrite orb_false_r. f_equal. apply bool_decide_ext. lia.
Qed.

(** The inner loop on pixel [i] writes its [planes] bits. *)
Lemma toPlanar_planes i out M :
  0 ≤ i < len content → len out = M →
  (∀ y q, 0 ≤ y < M → 0 ≤ q → Z.testbit (byte_at out y) q = bit i 0 y q) →
  let out' :=
    JS.for_loop (Z.to_nat planes) 0 planes 1
      (toPlanar_plane (JS.get content (Some i)) (Some ((i / 8) mod wb))
         (bit_index byteOrderMSB i) wb (i / (8 * wb) * (planes * wb))) out in
  len out' = M
  ∧ ∀ y q, 0 ≤ y < M → 0 ≤ q → Z.testbit (byte_at out' y) q = bit i planes y q.
Proof.
  intros Hi Hlen Hbits. cbv zeta.
  pose proof (bit_index_range byteOrderMSB i (proj1 Hi)) as Hpb.
  destruct (for_loop_rule
    (λ b o, 0 ≤ b ∧ len o = M
            ∧ ∀ y q, 0 ≤ y < M → 0 ≤ q → Z.testbit (byte_at o y) q = bit i b y q)
    planes 1
    (toPlanar_plane (JS.get content (Some i)) (Some ((i / 8) mod wb))
       (bit_index byteOrderMSB i) wb (i / (8 * wb) * (planes * wb))))
    with (fuel := Z.to_nat planes) (i := 0) (s := out)
    as (b' & Hb1 & Hb2 & Hb0 & Hlen' & Hbits'); [lia| |lia|done|].
  - intros b o Hb (Hb0 & Hleno & Hbitso). split; [lia|].
    unfold toPlanar_plane, JS.add. cbn [fmap option_fmap option_map].
    split; [unfold len; by rewrite or_assign_length|].
    intros y q Hy Hq. rewrite or_assign_testbit by lia.
    rewrite Hbitso by done. rewrite toPlanar_bit_step by lia.
    rewrite bit_extract by lia. fold (byte_at content i).
    case_decide as Hy'.
    + destruct (decide (q < 8)) as [Hq8|Hq8].
      * rewrite (bool_decide_true (q < 8)) by done. simpl.
        rewrite shl_bit_testbit by lia. f_equal. f_equal.
        apply bool_decide_ext. lia.
      * rewrite (bool_decide_false (q < 8)) by done. simpl.
        rewrite (bool_decide_false (_ ∧ q = _)) by lia.
        unfold toPlanar_bit. rewrite bool_decide_false by lia. done.
    + rewrite (bool_decide_false (_ ∧ q = _)) by lia. simpl.
      by rewrite orb_false_r.
  - assert (b' = planes) as -> by lia. done.
Qed.

(** The outer loop. *)
Lemma toPlanar_loop out0 M :
  len out0 = M → (∀ y, byte_at out0 y = 0) →
  let final :=
    JS.for_loop (length content) 0 (len content) 1
      (toPlanar_pixel content planes (8 * wb) byteOrderMSB wb) (0, out0) in
  len (snd final) = M
  ∧ ∀ y q, 0 ≤ y < M → 0 ≤ q →
      Z.testbit (byte_at (snd final) y) q = bit (len content) 0 y q.
Proof.
  intros Hlen0 Hzero. cbv zeta.
  destruct (for_loop_rule
    (λ i st, 0 ≤ i ∧ fst st = i / (8 * wb) * (planes * wb)
             ∧ len (snd st) = M
             ∧ ∀ y q, 0 ≤ y < M → 0 ≤ q →
                 Z.testbit (byte_at (snd st) y) q = bit i 0 y q)
    (len content) 1
    (toPlanar_pixel content planes (8 * wb) byteOrderMSB wb))
    with (fuel := length content) (i := 0) (s := (0, out0))
    as (i' & Hi1 & Hi2 & Hi0 & _ & Hlen' & Hbits'); [lia| |unfold len; lia| |].
  - intros i [outpos out] Hi (Hi0 & Hpos & Hleno & Hbitso).
    simpl in Hpos, Hleno, Hbitso. subst outpos. split; [lia|].
    unfold toPlanar_pixel.
    assert (JS.div8_int32 i = i / 8) as ->.
    { unfold JS.div8_int32. apply ToInt32_small.
      assert (0 ≤ i / 8) by (apply Z.div_pos; lia).
      assert (i / 8 < 2 ^ 31) by (apply Z.div_lt_upper_bound; lia). lia. }
    change (if byteOrderMSB then 7 - Z.rem i 8 else Z.rem i 8)
      with (bit_index byteOrderMSB i).
    unfold JS.rem. repeat case_decide; try lia.
    rewrite !Z.rem_mod_nonneg by (lia || apply Z.div_pos; lia).
    destruct (toPlanar_planes i out M (conj Hi0 Hi) Hleno Hbitso) as [Hlenr Hbitsr].
    rewrite (next_block (8 * wb) i (planes * wb)) by lia. unfold JS.strict_eq.
    set (out' := JS.for_loop _ _ _ _ _ _) in *.
    assert (∀ y q, 0 ≤ y < M → 0 ≤ q →
              Z.testbit (byte_at out' y) q = bit (i + 1) 0 y q) as Hnext.
    { intros y q Hy Hq. rewrite Hbitsr by done. unfold toPlanar_bit.
      pose proof (Z.mod_pos_bound (y / wb) planes).
      f_equal. apply bool_decide_ext. lia. }
    destruct (decide (i mod (8 * wb) = 8 * wb - 1)) as [Hlast|Hlast].
    + rewrite !bool_decide_true by (done || congruence). done.
    + rewrite !bool_decide_false by (done || congruence). done.
  - simpl. split; [done|]. split; [by rewrite Z.div_0_l by lia|]. split; [done|].
    intros y q Hy Hq. rewrite Hzero, Z.bits_0. unfold toPlanar_bit.
    rewrite bool_decide_false; [done|].
    pose proof (Z.mod_pos_bound (y / wb) planes).
    pose proof (Z.mod_pos_bound y wb).
    assert (0 ≤ y / (planes * wb)) by (apply Z.div_pos; lia).
    intros [Hq8 Hpix]. unfold toPlanar_pixel_of in Hpix.
    pose proof (bit_index_range byteOrderMSB q Hq). nia.
  - assert (i' = len content) as -> by (unfold len in *; lia). done.
Qed.

(** What [toPlanar] returns on [k] rows of [8 * wb] pixels. *)
Lemma toPlanar_encodes k :
  0 ≤ k → len content = k * (8 * wb) →
  ∃ packed,
    toPlanar content planes (8 * wb) byteOrderMSB = inr packed
    ∧ len packed = k * (planes * wb)
    ∧ ∀ y q, 0 ≤ y < k * (planes * wb) → 0 ≤ q →
        Z.testbit (byte_at packed y) q
        = bool_decide (q < 8)
          && Z.testbit (byte_at content (pixel_of y q)) ((y / wb) mod planes).
Proof.
  intros Hk Hlen. unfold toPlanar.
  rewrite new_Uint8Array_nonneg by (unfold len; lia).
  rewrite ceil_div8_mul.
  assert (len content * planes / 8 = k * (planes * wb)) as ->.
  { rewrite Hlen. replace (k * (8 * wb) * planes) with (k * (planes * wb) * 8) by lia.
    apply Z.div_mul. lia. }
  eexists. split; [done|].
  destruct (toPlanar_loop (replicate (Z.to_nat (k * (planes * wb))) 0)
              (k * (planes * wb))) as [Hlenf Hbits].
  - unfold len. rewrite length_replicate. nia.
  - intros y. unfold byte_at, JS.get. case_decide; [|done].
    destruct (replicate _ _ !! _) eqn:Hl; [|done].
    by apply lookup_replicate in Hl as [-> _].
  - split; [exact Hlenf|]. intros y q Hy Hq. rewrite Hbits by done.
    unfold toPlanar_bit. f_equal. apply bool_decide_ext.
    split; [tauto|]. intros Hq8. split; [done|]. left.
    unfold toPlanar_pixel_of. rewrite Hlen.
    pose proof (bit_index_range byteOrderMSB q Hq).
    pose proof (Z.mod_pos_bound y wb).
    assert (y / (planes * wb) < k) by (apply Z.div_lt_upper_bound; nia).
    nia.
Qed.
End encode.

(** *** The law *)

Lemma round_trip_empty planes planeWidth byteOrderMSB :
  1 ≤ planes → 0 < planeWidth →
  round_trip [] planes planeWidth byteOrderMSB = inr [].
Proof.
  intros Hp Hw. unfold round_trip, fromPlanar.
  rewrite new_Uint8Array_nonneg by (unfold len; simpl; lia).
  pose proof (ceil_div8_pos planeWidth Hw). case_decide; [lia|].
  change (len [] * 8) with 0. rewrite Z.div_0_l by lia. simpl.
  unfold toPlanar. rewrite new_Uint8Array_nonneg by (unfold len; simpl; lia).
  change (len [] * planes) with 0. by rewrite Z.div_0_l by lia.
Qed.

(** Two arrays of bytes with the same length and the same bits are equal. *)
Lemma bytes_eq (a b : list Z) :
  len a = len b →
  Forall (λ v, 0 ≤ v < 256) b →
  (∀ y q, 0 ≤ y < len b → 0 ≤ q < 8 →
     Z.testbit (byte_at a y) q = Z.testbit (byte_at b y) q) →
  (∀ y q, 0 ≤ y < len b → 8 ≤ q → Z.testbit (byte_at a y) q = false) →
  a = b.
Proof.
  intros Hlen Hb Hlow Hhigh. unfold len in *. apply list_eq. intros i.
  destruct (decide (i < length b)%nat) as [Hi|Hi].
  - destruct (lookup_lt_is_Some_2 a i) as [va Hva]; [lia|].
    destruct (lookup_lt_is_Some_2 b i) as [vb Hvb]; [lia|].
    rewrite Hva, Hvb. f_equal.
    assert (byte_at a (Z.of_nat i) = va) as Ha
      by (rewrite byte_at_lookup, Nat2Z.id, Hva by lia; done).
    assert (byte_at b (Z.of_nat i) = vb) as Hb'
      by (rewrite byte_at_lookup, Nat2Z.id, Hvb by lia; done).
    pose proof (Forall_lookup_1 _ _ _ _ Hb Hvb) as Hrange. simpl in Hrange.
    apply Z.bits_inj'. intros q Hq. rewrite <- Ha, <- Hb'.
    destruct (decide (q < 8)).
    + apply Hlow; lia.
    + rewrite Hhigh by lia. rewrite Hb'. symmetry.
      apply (testbit_above vb 8 q); lia.
  - rewrite !lookup_ge_None_2; [done|lia|lia].
Qed.

(** The round trip on [k] blocks of [planes] strides of [wb] bytes. *)
Lemma round_trip_blocks content planes wb byteOrderMSB k :
  1 ≤ planes ≤ 8 → 0 < wb → 0 ≤ k →
  len content = k * (planes * wb) → len content < 2 ^ 31 →
  Forall (λ v, 0 ≤ v < 256) content →
  round_trip content planes (8 * wb) byteOrderMSB = inr content.
Proof.
  intros Hp Hwb Hk Hlen Hsize Hbytes.
  destruct (decide (k = 0)) as [->|Hk0].
  { assert (content = []) as -> by (apply length_zero_iff_nil; unfold len in *; lia).
    apply round_trip_empty; lia. }
  assert (1 ≤ k * planes) as Hkp by nia.
  assert (wb ≤ len content ∧ k * wb ≤ len content) as [Hwbl Hkwb].
  { rewrite Hlen. split.
    - replace (k * (planes * wb)) with (k * planes * wb) by lia.
      pose proof (Z.mul_le_mono_nonneg_r 1 (k * planes) wb). lia.
    - replace (k * (planes * wb)) with (planes * (k * wb)) by lia.
      pose proof (Z.mul_le_mono_nonneg_r 1 planes (k * wb)). nia. }
  destruct (fromPlanar_decodes content planes wb byteOrderMSB Hp
              ltac:(lia) k Hk Hlen) as (linear & Hfrom & Hlinlen & Hlin).
  unfold round_trip. rewrite Hfrom.
  destruct (toPlanar_encodes linear planes wb byteOrderMSB Hp Hwb
              ltac:(lia) k Hk Hlinlen) as (packed & Hto & Hpacklen & Hpack).
  rewrite Hto. f_equal. apply bytes_eq; [lia|done| |].
  - intros y q Hy Hq. rewrite Hpack by lia.
    rewrite bool_decide_true by lia. simpl.
    pose proof (bit_index_range byteOrderMSB q (proj1 Hq)) as Hu.
    pose proof (Z.mod_pos_bound y wb Hwb) as Hc.
    pose proof (Z.mod_pos_bound (y / wb) planes) as Hpl.
    assert (0 ≤ y / (planes * wb) < k) as Hj.
    { split; [apply Z.div_pos; nia|apply Z.div_lt_upper_bound; nia]. }
    unfold toPlanar_pixel_of.
    set (x := y / (planes * wb) * (8 * wb) + 8 * (y mod wb) + bit_index byteOrderMSB q).
    destruct (pixel_unique wb (y / (planes * wb)) (y mod wb)
                (bit_index byteOrderMSB q) x) as (Hxj & _ & _ & Hxm);
      [lia|lia|lia|done|].
    rewrite Hlin by (subst x; nia).
    rewrite bool_decide_true by lia. simpl. rewrite Hxj, Hxm.
    destruct (div_mod_unique 8 (y mod wb) (bit_index byteOrderMSB q)
                (8 * (y mod wb) + bit_index byteOrderMSB q)) as [-> Hm8]; [lia|lia|].
    rewrite (bit_index_mod _ (8 * _ + _)), Hm8, bit_index_involutive by lia.
    f_equal. f_equal. pose proof (byte_decompose planes wb y). lia.
  - intros y q Hy Hq. rewrite Hpack by lia. by rewrite bool_decide_false by lia.
Qed.

(** C1, as amended.  For [planes] in 1, 2, 4, 5, 8, a [planeWidth] that is a
    positive multiple of 8, either bit order and a content of bytes, shorter
    than 2^31, whose length is a multiple of [planeWidth / 8 * planes]:
    [toPlanar(fromPlanar(content))] returns [content]. *)
Theorem round_trip_law content planes planeWidth byteOrderMSB :
  planes ∈ [1; 2; 4; 5; 8] →
  0 < planeWidth → planeWidth mod 8 = 0 →
  Forall (λ v, 0 ≤ v < 256) content →
  len content mod (planeWidth / 8 * planes) = 0 →
  len content < 2 ^ 31 →
  round_trip content planes planeWidth byteOrderMSB = inr content.
Proof.
  intros Hp Hw Hw8 Hbytes Hlen Hsize.
  assert (1 ≤ planes ≤ 8) as Hp'.
  { repeat (apply elem_of_cons in Hp as [->|Hp]; [lia|]). by apply elem_of_nil in Hp. }
  assert (planeWidth = 8 * (planeWidth / 8)) as Hwb
    by (pose proof (Z.div_mod planeWidth 8); lia).
  set (wb := planeWidth / 8) in *. rewrite Hwb.
  assert (0 < wb) by lia.
  apply (round_trip_blocks content planes wb byteOrderMSB (len content / (wb * planes)));
    [done|done| | |done|done].
  - apply Z.div_pos; unfold len; nia.
  - pose proof (Z.div_mod (len content) (wb * planes)). nia.
Qed.

Lemma round_trip_law_witness :
  round_trip [1; 2; 3; 4; 5; 6; 7; 8; 9; 10; 11; 12; 13; 14; 15; 16; 17; 18; 19; 255]
    5 16 true
  = inr [1; 2; 3; 4; 5; 6; 7; 8; 9; 10; 11; 12; 13; 14; 15; 16; 17; 18; 19; 255].
Proof.
  apply round_trip_law.
  - apply (bool_decide_unpack _). vm_compute. exact I.
  - lia.
  - reflexivity.
  - apply (bool_decide_unpack _). vm_compute. exact I.
  - reflexivity.
  - vm_compute. reflexivity.
Defined.

(** The law is stated for a content shorter than 2^31 bytes because the
    index arithmetic of [toPlanar] is cut to 32 bits: from pixel 2^34 on,
    [(i / 8) >> 0] is negative. *)
Example div8_int32_wraps : JS.div8_int32 (2 ^ 34) = - 2 ^ 31.
Proof. reflexivity. Qed.

(** C1 as stated fails for a plane width that is not a multiple of 8: with
    one plane of width 4, a row is 4 pixels in the high bits of one byte;
    [toPlanar] puts the second row in the low bits. *)
Lemma round_trip_planeWidth_4_counterexample :
  1 ∈ [1; 2; 4; 5; 8]
  ∧ 0 < 4
  ∧ len [0x80; 0x80] mod (JS.ceil_div8 4 * 1) = 0
  ∧ fromPlanar [0x80; 0x80] 1 4 true
    = inr [1; 0; 0; 0; 1; 0; 0; 0; 0; 0; 0; 0; 0; 0; 0; 0]
  ∧ round_trip [0x80; 0x80] 1 4 true = inr [0x80; 0x08]
  ∧ round_trip [0x80; 0x80] 1 4 true ≠ inr [0x80; 0x80].
Proof.
  split; [apply (bool_decide_unpack _); vm_compute; exact I|].
  repeat split; try (vm_compute; reflexivity).
  vm_compute. discriminate.
Qed.

(** * Further properties of the code *)

(** ** Loops with bodies that agree *)

Lemma for_loop_ext {St : Type} (f g : Z → St → St) limit step :
  0 ≤ step →
  ∀ fuel i s,
    (∀ k s', i ≤ k < limit → f k s' = g k s') →
    JS.for_loop fuel i limit step f s = JS.for_loop fuel i limit step g s.
Proof.
  intros Hstep fuel. induction fuel as [|fuel IH]; intros i s Hfg; simpl; [done|].
  destruct (decide (i < limit)); [|done].
  rewrite Hfg by lia. apply IH. intros k s' ?. apply Hfg. lia.
Qed.

Lemma get_fmap (f : Z → Z) (a : list Z) k : JS.get (f <$> a) k = f <$> JS.get a k.
Proof.
  unfold JS.get. destruct k as [k|]; [|done].
  case_decide; [|done]. apply list_lookup_fmap.
Qed.

Lemma len_fmap (f : Z → Z) (a : list Z) : len (f <$> a) = len a.
Proof. unfold len. by rewrite length_fmap. Qed.

(** ** The planar codec: when it returns, and how much *)

(** X1. For a plane count of at least 1, [fromPlanar] returns exactly when
    [planeWidth > 0], and then the buffer has [content.length * 8 / planes]
    elements (rounded down), each a byte. *)
Theorem fromPlanar_returns_iff content planes planeWidth byteOrderMSB :
  1 ≤ planes →
  (0 < planeWidth ↔ ∃ out, fromPlanar content planes planeWidth byteOrderMSB = inr out)
  ∧ (∀ out, fromPlanar content planes planeWidth byteOrderMSB = inr out →
       len out = len content * 8 / planes ∧ Forall (λ v, 0 ≤ v < 256) out).
Proof.
  intros Hp.
  assert (0 < planeWidth →
          ∃ out, fromPlanar content planes planeWidth byteOrderMSB = inr out
                 ∧ len out = len content * 8 / planes
                 ∧ Forall (λ v, 0 ≤ v < 256) out) as Hret.
  { intros Hw. unfold fromPlanar.
    rewrite new_Uint8Array_nonneg by (unfold len; lia).
    pose proof (ceil_div8_pos planeWidth Hw). case_decide; [lia|].
    eexists. split; [done|].
    set (out0 := replicate _ 0).
    set (final := JS.for_loop _ _ _ _ _ _).
    assert (length (snd final) = length out0 ∧ Forall (λ v, 0 ≤ v < 256) (snd final))
      as [Hlen Hbytes].
    { subst final.
      apply (for_loop_preserves
               (λ st, length (snd st) = length out0
                      ∧ Forall (λ v, 0 ≤ v < 256) (snd st))); [lia| |].
      - intros i [outpos out] _ [Hl Hb]. simpl in Hl, Hb.
        split; [by rewrite fromPlanar_stride_length|].
        unfold fromPlanar_stride.
        set (inner := JS.for_loop _ _ _ _ _ _).
        assert (Forall (λ v, 0 ≤ v < 256) inner) as Hinner.
        { subst inner.
          apply (for_loop_preserves (Forall (λ v, 0 ≤ v < 256))); [lia| |done].
          intros b o _ Ho. unfold fromPlanar_pixel. apply or_assign_Forall; [done|].
          intros old _ _. apply ToUint8_range. }
        by destruct (JS.strict_eq _ _).
      - split; [done|]. apply Forall_replicate. lia. }
    split; [|done]. unfold len at 1. rewrite Hlen. subst out0.
    rewrite length_replicate, Z2Nat.id; [done|].
    apply Z.div_pos; unfold len; lia. }
  split; [split|].
  - intros Hw. destruct (Hret Hw) as (out & Hout & _). eauto.
  - intros [out Hout]. destruct (decide (0 < planeWidth)); [done|].
    rewrite fromPlanar_throws in Hout by lia.
    by destruct (JS.new_Uint8Array _ _).
  - intros out Hout. destruct (decide (0 < planeWidth)) as [Hw|Hw].
    + destruct (Hret Hw) as (out' & Hout' & Hrest). congruence.
    + rewrite fromPlanar_throws in Hout by lia.
      by destruct (JS.new_Uint8Array _ _).
Qed.

Lemma fromPlanar_returns_iff_witness :
  (∃ out, fromPlanar [0xAA; 0x55; 0xFF] 5 16 false = inr out)
  ∧ (∀ out, fromPlanar [0xAA; 0x55; 0xFF] 5 16 false = inr out →
       len out = 4 ∧ Forall (λ v, 0 ≤ v < 256) out).
Proof.
  destruct (fromPlanar_returns_iff [0xAA; 0x55; 0xFF] 5 16 false) as [H1 H2]; [lia|].
  split; [apply H1; lia|exact H2].
Defined.

(** X2. As long as [content.length * planes] is at most 2^53 - 1,
    [toPlanar] fails only through a negative buffer length: it throws
    [RangeError] exactly when [content.length * planes <= -8], and
    otherwise returns, for every [planeWidth], a buffer of
    [content.length * planes / 8] elements (rounded toward zero), each a
    byte. *)
Theorem toPlanar_returns_iff content planes planeWidth byteOrderMSB :
  len content * planes ≤ 2 ^ 53 - 1 →
  (len content * planes ≤ -8 ↔
     toPlanar content planes planeWidth byteOrderMSB
     = inl JS.RangeError_invalid_typed_array_length)
  ∧ (- 8 < len content * planes ↔
       ∃ out, toPlanar content planes planeWidth byteOrderMSB = inr out
              ∧ len out = Z.quot (len content * planes) 8
              ∧ Forall (λ v, 0 ≤ v < 256) out).
Proof.
  intros _.
  destruct (decide (- 8 < len content * planes)) as [Hpos|Hneg].
  - destruct (toPlanar_allocated content planes planeWidth byteOrderMSB Hpos)
      as (out & Hout & Hrest).
    split; [split; [lia|]|split; [eauto|done]].
    rewrite Hout. discriminate.
  - assert (toPlanar content planes planeWidth byteOrderMSB
            = inl JS.RangeError_invalid_typed_array_length) as Hthrows.
    { unfold toPlanar, JS.new_Uint8Array. rewrite decide_False by lia.
      rewrite decide_True; [done|]. apply quot8_negative. lia. }
    split; [split; [done|lia]|]. split; [lia|].
    rewrite Hthrows. intros (out & Hout & _). discriminate.
Qed.

Lemma toPlanar_returns_iff_witness :
  toPlanar [1; 2; 3] (-8) 8 true = inl JS.RangeError_invalid_typed_array_length.
Proof.
  destruct (toPlanar_returns_iff [1; 2; 3] (-8) 8 true) as [H _].
  - vm_compute. discriminate.
  - apply H. vm_compute. discriminate.
Defined.

(** X3. With a [planeWidth] between -7 and 0, [toPlanar] writes nothing:
    the byte offset [(i / 8) % 0] is [NaN], every write is dropped, and the
    result is a buffer of zeros, whatever the pixels are (for a plane count
    from 0 up with [content.length * planes] at most 2^53 - 1). *)
Theorem toPlanar_zero_width content planes planeWidth byteOrderMSB :
  - 8 < planeWidth ≤ 0 → 0 ≤ planes →
  len content * planes ≤ 2 ^ 53 - 1 →
  toPlanar content planes planeWidth byteOrderMSB
  = inr (replicate (Z.to_nat (len content * planes / 8)) 0).
Proof.
  intros Hw Hp _. unfold toPlanar.
  rewrite new_Uint8Array_nonneg by (unfold len; lia).
  assert (JS.ceil_div8 planeWidth = 0) as ->.
  { unfold JS.ceil_div8. rewrite Z.div_small; lia. }
  f_equal. set (out0 := replicate _ 0).
  apply (for_loop_preserves (λ st, snd st = out0)); [lia| |done].
  intros i [outpos out] _ Hout. simpl in Hout. subst out.
  unfold toPlanar_pixel.
  assert (JS.rem (JS.div8_int32 i) 0 = None) as -> by done.
  set (inner := JS.for_loop _ _ _ _ _ _).
  assert (inner = out0) as ->.
  { subst inner. apply (for_loop_preserves (λ o, o = out0)); [lia| |done].
    intros b o _ ->. done. }
  by destruct (JS.strict_eq _ _).
Qed.

Lemma toPlanar_zero_width_witness :
  toPlanar [1; 2; 3; 4; 5; 6; 7; 8] 2 0 true = inr [0; 0].
Proof.
  apply (toPlanar_zero_width [1; 2; 3; 4; 5; 6; 7; 8] 2 0 true);
    [lia|lia|vm_compute; discriminate].
Defined.

(** ** The planar codec: which bits of its input it reads *)

(** X4. [toPlanar] reads the low [planes] bits of each pixel and nothing
    else: for every [planeWidth], cutting the pixels to [planes] bits first
    changes nothing. *)
Theorem toPlanar_masks_pixels content planes planeWidth byteOrderMSB :
  0 ≤ planes ≤ 32 →
  toPlanar ((λ v, v mod 2 ^ planes) <$> content) planes planeWidth byteOrderMSB
  = toPlanar content planes planeWidth byteOrderMSB.
Proof.
  intros Hp. unfold toPlanar. rewrite len_fmap, length_fmap.
  destruct (JS.new_Uint8Array _ 8) as [e|out0]; [done|]. f_equal. f_equal.
  apply for_loop_ext; [lia|]. intros i [outpos out] Hi.
  unfold toPlanar_pixel. rewrite get_fmap.
  set (data := JS.get content (Some i)).
  assert (JS.for_loop (Z.to_nat planes) 0 planes 1
            (toPlanar_plane ((λ v, v mod 2 ^ planes) <$> data)
               (JS.rem (JS.div8_int32 i) (JS.ceil_div8 planeWidth))
               (if byteOrderMSB then 7 - Z.rem i 8 else Z.rem i 8)
               (JS.ceil_div8 planeWidth) outpos) out
          = JS.for_loop (Z.to_nat planes) 0 planes 1
              (toPlanar_plane data
                 (JS.rem (JS.div8_int32 i) (JS.ceil_div8 planeWidth))
                 (if byteOrderMSB then 7 - Z.rem i 8 else Z.rem i 8)
                 (JS.ceil_div8 planeWidth) outpos) out) as ->; [|done].
  apply for_loop_ext; [lia|]. intros b o Hb. unfold toPlanar_plane.
  rewrite !bit_extract by lia. do 3 f_equal.
  destruct data as [v|]; simpl; [|done].
  apply Z.mod_pow2_bits_low. lia.
Qed.

Lemma toPlanar_masks_pixels_witness :
  toPlanar ((λ v, v mod 2 ^ 2) <$> [5; 6; 7; 8; 9; 10; 11; 255]) 2 8 true
  = toPlanar [5; 6; 7; 8; 9; 10; 11; 255] 2 8 true.
Proof. apply (toPlanar_masks_pixels [5; 6; 7; 8; 9; 10; 11; 255] 2 8 true). lia. Defined.

Lemma shiftl_b2z_testbit (c : bool) n u :
  0 ≤ u → Z.testbit (Z.shiftl (Z.b2z c) n) u = bool_decide (u = n) && c.
Proof.
  intros Hu. rewrite Z.shiftl_spec by done.
  destruct (decide (0 ≤ u - n)).
  - rewrite b2z_testbit by done. f_equal. apply bool_decide_ext. lia.
  - rewrite Z.testbit_neg_r by lia. by rewrite bool_decide_false by lia.
Qed.

Lemma reverse_bits8_testbit v u :
  0 ≤ u < 8 → Z.testbit (reverse_bits8 v) u = Z.testbit v (7 - u).
Proof.
  intros Hu. unfold reverse_bits8. cbn [fmap list_fmap fold_right].
  rewrite !Z.lor_spec, !shiftl_b2z_testbit, Z.bits_0 by lia.
  assert (u = 0 ∨ u = 1 ∨ u = 2 ∨ u = 3 ∨ u = 4 ∨ u = 5 ∨ u = 6 ∨ u = 7)
    as [->|[->|[->|[->|[->|[->|[->| ->]]]]]]] by lia;
    repeat (case_bool_decide; try lia);
    match goal with |- _ = Z.testbit v ?e =>
      let e' := eval cbv in e in change e with e' end;
    repeat match goal with |- context [Z.testbit v ?k] =>
             destruct (Z.testbit v k); cbn [andb orb] end; reflexivity.
Qed.

(** X5. The two bit orders differ by the order of the bits in each source
    byte: [fromPlanar] with the most significant bit first is [fromPlanar]
    with the least significant bit first on the bytes bit-reversed, for
    every plane count and plane width (failures included). *)
Theorem fromPlanar_bit_order content planes planeWidth :
  fromPlanar content planes planeWidth true
  = fromPlanar (reverse_bits8 <$> content) planes planeWidth false.
Proof.
  unfold fromPlanar. rewrite len_fmap, length_fmap.
  destruct (JS.new_Uint8Array _ planes) as [e|out0]; [done|].
  case_decide; [done|]. f_equal. f_equal.
  apply for_loop_ext; [lia|]. intros i [outpos out] Hi.
  unfold fromPlanar_stride.
  set (plane := JS.rem _ _).
  assert (JS.for_loop (Z.to_nat planeWidth) 0 planeWidth 1
            (fromPlanar_pixel content true i plane outpos) out
          = JS.for_loop (Z.to_nat planeWidth) 0 planeWidth 1
              (fromPlanar_pixel (reverse_bits8 <$> content) false i plane outpos) out)
    as ->; [|done].
  apply for_loop_ext; [lia|]. intros b o Hb. unfold fromPlanar_pixel.
  rewrite get_fmap.
  pose proof (Z.mod_pos_bound b 8).
  rewrite !Z.rem_mod_nonneg by lia.
  rewrite !bit_extract by lia. do 3 f_equal.
  destruct (JS.get content _) as [v|]; simpl.
  - rewrite reverse_bits8_testbit by lia. done.
  - by rewrite !Z.bits_0.
Qed.

(** ** The planar codec: the layout, and encoding followed by decoding *)

(** X6. The layout [fromPlanar] reads, for rows of [8 * wb] pixels: bit [p]
    of pixel [r] of row [block] is the bit for pixel [r] in byte [r / 8] of
    the stride of plane [p] of that row. *)
Theorem fromPlanar_layout content planes wb byteOrderMSB k :
  1 ≤ planes ≤ 8 → 0 < wb < 2 ^ 32 → 0 ≤ k →
  len content = k * (planes * wb) →
  ∃ linear,
    fromPlanar content planes (8 * wb) byteOrderMSB = inr linear
    ∧ len linear = k * (8 * wb)
    ∧ ∀ block r p, 0 ≤ block < k → 0 ≤ r < 8 * wb → 0 ≤ p < planes →
        Z.testbit (byte_at linear (block * (8 * wb) + r)) p
        = Z.testbit (byte_at content ((block * planes + p) * wb + r / 8))
            (bit_index byteOrderMSB r).
Proof.
  intros Hp Hwb Hk Hlen.
  destruct (fromPlanar_decodes content planes wb byteOrderMSB Hp Hwb k Hk Hlen)
    as (linear & Hfrom & Hlinlen & Hbits).
  exists linear. split; [done|]. split; [done|].
  intros block r p Hblock Hr Hp'.
  destruct (div_mod_unique (8 * wb) block r (block * (8 * wb) + r)) as [Hq Hm];
    [lia|lia|].
  rewrite Hbits by nia. rewrite Hq, Hm. by rewrite bool_decide_true by lia.
Qed.

Lemma fromPlanar_layout_witness :
  ∃ linear,
    fromPlanar [0xAA; 0x55; 0x0F; 0xF0] 2 (8 * 1) true = inr linear
    ∧ len linear = 2 * (8 * 1).
Proof.
  destruct (fromPlanar_layout [0xAA; 0x55; 0x0F; 0xF0] 2 1 true 2)
    as (linear & H1 & H2 & _); [lia|lia|lia|reflexivity|].
  exists linear. split; [exact H1|exact H2].
Defined.

(** X7. The layout [toPlanar] writes, for rows of [8 * wb] pixels: in the
    stride of plane [p] of row [block], bit [q] of byte [c] is bit [p] of
    the pixel that this bit stands for, and bits 8 and up are clear. *)
Theorem toPlanar_layout linear planes wb byteOrderMSB k :
  1 ≤ planes ≤ 8 → 0 < wb → 0 ≤ k →
  len linear = k * (8 * wb) → len linear ≤ 2 ^ 34 →
  ∃ packed,
    toPlanar linear planes (8 * wb) byteOrderMSB = inr packed
    ∧ len packed = k * (planes * wb)
    ∧ ∀ block p c q, 0 ≤ block < k → 0 ≤ p < planes → 0 ≤ c < wb → 0 ≤ q < 8 →
        Z.testbit (byte_at packed ((block * planes + p) * wb + c)) q
        = Z.testbit
            (byte_at linear (block * (8 * wb) + 8 * c + bit_index byteOrderMSB q)) p.
Proof.
  intros Hp Hwb Hk Hlen Hsize.
  destruct (toPlanar_encodes linear planes wb byteOrderMSB Hp Hwb Hsize k Hk Hlen)
    as (packed & Hto & Hpacklen & Hbits).
  exists packed. split; [done|]. split; [done|].
  intros block p c q Hblock Hp' Hc Hq.
  destruct (byte_unique planes wb block p c ((block * planes + p) * wb + c))
    as (Hj & Hpl & Hcm & _); [lia|lia|lia|lia|lia|].
  assert (0 ≤ (block * planes + p) * wb + c < k * (planes * wb)) as Hy.
  { assert (block * planes + p ≤ k * planes - 1) by nia. nia. }
  rewrite Hbits by lia. rewrite bool_decide_true by lia. simpl.
  unfold toPlanar_pixel_of. by rewrite Hj, Hpl, Hcm.
Qed.

Lemma toPlanar_layout_witness :
  ∃ packed,
    toPlanar [1; 2; 1; 2; 1; 2; 1; 2] 2 (8 * 1) true = inr packed
    ∧ len packed = 1 * (2 * 1).
Proof.
  destruct (toPlanar_layout [1; 2; 1; 2; 1; 2; 1; 2] 2 1 true 1)
    as (packed & H1 & H2 & _); [lia|lia|lia|reflexivity|vm_compute; discriminate|].
  exists packed. split; [exact H1|exact H2].
Defined.

Lemma linear_round_trip_empty planes planeWidth byteOrderMSB :
  1 ≤ planes → 0 < planeWidth →
  linear_round_trip [] planes planeWidth byteOrderMSB = inr [].
Proof.
  intros Hp Hw. unfold linear_round_trip, toPlanar.
  rewrite new_Uint8Array_nonneg by (unfold len; simpl; lia).
  change (len [] * planes) with 0. rewrite Z.div_0_l by lia. simpl.
  unfold fromPlanar. rewrite new_Uint8Array_nonneg by (unfold len; simpl; lia).
  pose proof (ceil_div8_pos planeWidth Hw). case_decide; [lia|].
  change (len [] * 8) with 0. by rewrite Z.div_0_l by lia.
Qed.

Lemma byte_at_fmap (f : Z → Z) (a : list Z) x :
  f 0 = 0 → byte_at (f <$> a) x = f (byte_at a x).
Proof.
  intros Hf. unfold byte_at. rewrite get_fmap.
  by destruct (JS.get a (Some x)).
Qed.

(** X8. Encoding, then decoding with the same parameters, returns every
    pixel cut to its low [planes] bits: for 1 to 8 planes, a [planeWidth]
    that is a positive multiple of 8 and a number of pixels (below 2^31)
    that is a multiple of it.  Pixels below [2^planes] come back as they
    were. *)
Theorem fromPlanar_toPlanar linear planes planeWidth byteOrderMSB :
  1 ≤ planes ≤ 8 →
  0 < planeWidth → planeWidth mod 8 = 0 →
  len linear mod planeWidth = 0 →
  len linear < 2 ^ 31 →
  linear_round_trip linear planes planeWidth byteOrderMSB
  = inr ((λ v, v mod 2 ^ planes) <$> linear)
  ∧ (Forall (λ v, 0 ≤ v < 2 ^ planes) linear →
     linear_round_trip linear planes planeWidth byteOrderMSB = inr linear).
Proof.
  intros Hp Hw Hw8 Hlen Hsize.
  assert (linear_round_trip linear planes planeWidth byteOrderMSB
          = inr ((λ v, v mod 2 ^ planes) <$> linear)) as Hmain.
  2:{ split; [done|]. intros Hsmall. rewrite Hmain. f_equal.
      clear -Hsmall. induction Hsmall as [|v l Hv _ IH]; [done|].
      rewrite fmap_cons, IH. f_equal. by apply Z.mod_small. }
  assert (planeWidth = 8 * (planeWidth / 8)) as Hwb
    by (pose proof (Z.div_mod planeWidth 8); lia).
  set (wb := planeWidth / 8) in *. rewrite Hwb in *. clear Hwb.
  assert (0 < wb) as Hwb by lia.
  set (k := len linear / (8 * wb)).
  assert (0 ≤ k) as Hk by (apply Z.div_pos; unfold len; lia).
  assert (len linear = k * (8 * wb)) as Hlen'
    by (pose proof (Z.div_mod (len linear) (8 * wb)); subst k; lia).
  destruct (decide (k = 0)) as [Hk0|Hk0].
  { assert (linear = []) as ->
      by (apply length_zero_iff_nil; unfold len in *; lia).
    apply linear_round_trip_empty; lia. }
  assert (8 * wb ≤ len linear).
  { rewrite Hlen'. pose proof (Z.mul_le_mono_nonneg_r 1 k (8 * wb)). lia. }
  destruct (toPlanar_encodes linear planes wb byteOrderMSB Hp Hwb ltac:(lia) k Hk Hlen')
    as (packed & Hto & Hpacklen & Hpack).
  destruct (fromPlanar_decodes packed planes wb byteOrderMSB Hp ltac:(lia) k Hk Hpacklen)
    as (linear' & Hfrom & Hlinlen & Hlin).
  unfold linear_round_trip. rewrite Hto, Hfrom. f_equal.
  assert (2 ^ planes ≤ 2 ^ 8) as Hpow by (apply Z.pow_le_mono_r; lia).
  apply bytes_eq.
  - rewrite len_fmap. lia.
  - apply Forall_fmap, Forall_forall. intros v _. simpl.
    pose proof (Z.mod_pos_bound v (2 ^ planes)). lia.
  - intros x q Hx Hq. rewrite len_fmap in Hx.
    rewrite byte_at_fmap by (apply Z.mod_0_l; lia).
    rewrite Z.testbit_mod_pow2 by lia. rewrite Hlin by lia.
    destruct (decide (q < planes)) as [Hqp|Hqp].
    2:{ rewrite bool_decide_false by done.
        destruct (Z.ltb_spec q planes); [lia|done]. }
    rewrite bool_decide_true by done.
    destruct (Z.ltb_spec q planes); [simpl|lia].
    destruct (div_mod_eq (8 * wb) x) as [Hx1 Hx2]; [lia|].
    set (j := x / (8 * wb)) in *. set (m := x mod (8 * wb)) in *.
    destruct (div_mod_eq 8 m) as [Hm1 Hm2]; [lia|].
    assert (0 ≤ j < k) as Hj.
    { subst j. split; [apply Z.div_pos; lia|apply Z.div_lt_upper_bound; lia]. }
    assert (0 ≤ m / 8 < wb) as Hc.
    { split; [apply Z.div_pos; lia|apply Z.div_lt_upper_bound; lia]. }
    pose proof (bit_index_range byteOrderMSB m ltac:(lia)) as Hq'.
    destruct (byte_unique planes wb j q (m / 8) ((j * planes + q) * wb + m / 8))
      as (Hyj & Hypl & Hyc & _); [lia|lia|lia|lia|lia|].
    assert (0 ≤ (j * planes + q) * wb + m / 8 < k * (planes * wb)) as Hy.
    { assert (j * planes + q ≤ k * planes - 1) by nia. nia. }
    rewrite Hpack by lia. rewrite bool_decide_true by lia. simpl.
    unfold toPlanar_pixel_of. rewrite Hyj, Hypl, Hyc.
    rewrite (bit_index_mod _ m), bit_index_involutive by lia.
    f_equal. f_equal. lia.
  - intros x q Hx Hq. rewrite len_fmap in Hx. rewrite Hlin by lia.
    by rewrite bool_decide_false by lia.
Qed.

Lemma fromPlanar_toPlanar_witness :
  linear_round_trip [0; 1; 2; 3; 4; 5; 6; 7; 8; 9; 10; 11; 12; 13; 14; 255] 4 16 false
  = inr ((λ v, v mod 2 ^ 4) <$> [0; 1; 2; 3; 4; 5; 6; 7; 8; 9; 10; 11; 12; 13; 14; 255]).
Proof.
  apply (fromPlanar_toPlanar
           [0; 1; 2; 3; 4; 5; 6; 7; 8; 9; 10; 11; 12; 13; 14; 255] 4 16 false);
    [lia|lia|reflexivity|reflexivity|vm_compute; reflexivity].
Defined.

(** ** The registry: what a search returns *)

Section registry_more.
Context (content : list Z).
Implicit Types (x B : Handler) (l before after fileTypes : list Handler).

(** A registry has no definite match, or splits at its first one. *)
Lemma first_definite l :
  (∀ x, x ∈ l → identify x content ≠ DefiniteMatch)
  ∨ ∃ before B after,
      l = before ++ B :: after
      ∧ (∀ x, x ∈ before → identify x content ≠ DefiniteMatch)
      ∧ identify B content = DefiniteMatch.
Proof.
  induction l as [|x l IH]; [left; by intros x ?%elem_of_nil|].
  destruct (decide (identify x content = DefiniteMatch)) as [Hx|Hx].
  { right. exists [], x, l. split; [done|]. split; [|done]. by intros y ?%elem_of_nil. }
  destruct IH as [Hno|(before & B & after & -> & Hno & HB)].
  - left. intros y [->|Hy]%elem_of_cons; [done|by apply Hno].
  - right. exists (x :: before), B, after. split; [done|]. split; [|done].
    intros y [->|Hy]%elem_of_cons; [done|by apply Hno].
Qed.

Lemma findHandler_shape fileTypes :
  findHandler fileTypes content `sublist_of` fileTypes
  ∧ consulted (findHandler_search fileTypes content) `prefix_of` fileTypes
  ∧ (∀ x, x ∈ findHandler fileTypes content → identify x content ≠ DefiniteNoMatch).
Proof.
  unfold findHandler, findHandler_search.
  destruct (first_definite fileTypes) as [Hno|(before & B & after & -> & Hno & HB)].
  - rewrite Array_some_no_definite by done. simpl. split; [apply sublist_filter|].
    split; [done|]. intros x [Hx _]%list_elem_of_filter. congruence.
  - rewrite Array_some_definite by done. simpl. split; [|split].
    + apply sublist_inserts_l, sublist_skip, sublist_nil_l.
    + exists after. by rewrite <- app_assoc.
    + intros x ->%list_elem_of_singleton. congruence.
Qed.

(** X9. Whatever the handlers answer, [findHandler] returns handlers of the
    registry, in registry order and without repeating an entry; [identify]
    is called on an initial part of the registry, one handler after the
    other; and no handler that answered definite non-match is returned. *)
Theorem findHandler_result fileTypes :
  findHandler fileTypes content `sublist_of` fileTypes
  ∧ consulted (findHandler_search fileTypes content) `prefix_of` fileTypes
  ∧ (∀ x, x ∈ findHandler fileTypes content → identify x content ≠ DefiniteNoMatch).
Proof. apply findHandler_shape. Qed.

(** X10. [findHandler] returns the empty array exactly when every handler of
    the registry answers definite non-match. *)
Theorem findHandler_empty_iff fileTypes :
  findHandler fileTypes content = []
  ↔ ∀ x, x ∈ fileTypes → identify x content = DefiniteNoMatch.
Proof.
  unfold findHandler, findHandler_search.
  destruct (first_definite fileTypes) as [Hno|(before & B & after & -> & Hno & HB)].
  - rewrite Array_some_no_definite by done. simpl. split.
    + intros Hnil x Hx.
      destruct (identify x content) eqn:Hid; [by apply Hno in Hx|done|].
      assert (x ∈ filter (λ y, identify y content = PossibleMatch) fileTypes) as Hin
        by (by apply list_elem_of_filter).
      rewrite Hnil in Hin. by apply elem_of_nil in Hin.
    + intros Hall. induction fileTypes as [|x l IH]; [done|].
      rewrite filter_cons_False.
      * apply IH; intros y Hy; [apply Hno|apply Hall]; by right.
      * rewrite Hall by left. discriminate.
  - rewrite Array_some_definite by done. simpl. split; [discriminate|].
    intros Hall. specialize (Hall B). rewrite HB in Hall.
    discriminate Hall. apply elem_of_app. right. left.
Qed.
End registry_more.

(** ** The registry: lookup by id *)

Section getHandler.
Implicit Types (h x : Handler) (fileTypes : list Handler) (type : string).

(** X11. [getHandler] returns the first handler of the registry whose id is
    the one asked for, and nothing ([undefined]) exactly when no handler
    has that id. *)
Theorem getHandler_first fileTypes type :
  (∀ h, getHandler fileTypes type = Some h →
     ∃ before after,
       fileTypes = before ++ h :: after
       ∧ id (metadata h) = type
       ∧ ∀ x, x ∈ before → id (metadata x) ≠ type)
  ∧ (getHandler fileTypes type = None
     ↔ ∀ x, x ∈ fileTypes → id (metadata x) ≠ type).
Proof.
  unfold getHandler. induction fileTypes as [|x l [IH1 IH2]]; simpl.
  - split; [discriminate|]. split; [by intros _ x ?%elem_of_nil|done].
  - case_bool_decide as Hx.
    + split.
      * intros h [= <-]. exists [], l. split; [done|]. split; [done|].
        by intros y ?%elem_of_nil.
      * split; [discriminate|]. intros Hno. destruct (Hno x); [left|done].
    + split.
      * intros h Hh. destruct (IH1 h Hh) as (before & after & -> & Hid & Hno).
        exists (x :: before), after. split; [done|]. split; [done|].
        intros y [->|Hy]%elem_of_cons; [congruence|by apply Hno].
      * rewrite IH2. split.
        -- intros Hno y [->|Hy]%elem_of_cons; [congruence|by apply Hno].
        -- intros Hno y Hy. apply Hno. by right.
Qed.

Lemma getHandler_unique fileTypes h :
  NoDup ((λ x, id (metadata x)) <$> fileTypes) →
  h ∈ fileTypes →
  getHandler fileTypes (id (metadata h)) = Some h.
Proof.
  unfold getHandler. induction fileTypes as [|x l IH]; intros Hnd Hh.
  - by apply elem_of_nil in Hh.
  - rewrite fmap_cons in Hnd. apply NoDup_cons in Hnd as [Hx Hnd]. simpl.
    apply elem_of_cons in Hh as [->|Hh]; [by rewrite bool_decide_true|].
    rewrite bool_decide_false; [by apply IH|].
    intros Heq. apply Hx. rewrite <- Heq.
    apply (list_elem_of_fmap_2 (λ y, id (metadata y))). done.
Qed.

(** X12. When the ids of the registry are all different, looking up the id
    of a registered handler returns that handler; in particular every
    handler [findHandler] returns is found again by [getHandler] under its
    own id. *)
Theorem getHandler_of_registered fileTypes :
  NoDup ((λ x, id (metadata x)) <$> fileTypes) →
  (∀ h, h ∈ fileTypes → getHandler fileTypes (id (metadata h)) = Some h)
  ∧ (∀ content h, h ∈ findHandler fileTypes content →
       getHandler fileTypes (id (metadata h)) = Some h)
  ∧ (∀ h, h ∈ listHandlers fileTypes →
       getHandler fileTypes (id (metadata h)) = Some h).
Proof.
  intros Hnd. split; [|split].
  - intros h Hh. by apply getHandler_unique.
  - intros content h Hh. apply getHandler_unique; [done|].
    destruct (findHandler_shape content fileTypes) as [Hsub _].
    by eapply elem_of_sublist.
  - intros h Hh. by apply getHandler_unique.
Qed.
End getHandler.

Lemma getHandler_of_registered_witness :
  getHandler [example_handler "img-a" PossibleMatch no_limits;
              example_handler "img-b" DefiniteMatch no_limits] "img-b"
  = Some (example_handler "img-b" DefiniteMatch no_limits).
Proof.
  destruct (getHandler_of_registered
              [example_handler "img-a" PossibleMatch no_limits;
               example_handler "img-b" DefiniteMatch no_limits]) as [H _].
  - apply (bool_decide_unpack _). vm_compute. exact I.
  - apply (H (example_handler "img-b" DefiniteMatch no_limits)).
    right. left.
Defined.

(** ** The limits check: the issues and the warnings *)

Section checkLimits_more.
Implicit Types (this : Handler) (w : World) (fs : list File).

Lemma filter_all {A : Type} (P : A → Prop) `{∀ x, Decision (P x)} (l : list A) :
  (∀ x, x ∈ l → P x) → filter P l = l.
Proof.
  induction l as [|x l IH]; intros Hall; [done|].
  rewrite filter_cons_True by (apply Hall; left).
  f_equal. apply IH. intros y Hy. apply Hall. by right.
Qed.

Lemma filename_issue_text f m :
  filename_issue f (Some m)
  = "Filename length is " +:+ pretty (str_length (name f)) +:+ ", max is "
      +:+ pretty m +:+ ": " +:+ name f.
Proof. reflexivity. Qed.

(** X13. With [maxFilenameLen] set to a number other than 0, the issues
    about filenames are, in archive order, one for each entry whose name is
    longer than the limit; each names the length, the limit and the
    entry. *)
Theorem checkLimits_filename_issues this w m :
  maxFilenameLen (limits (metadata this)) = Some m → m ≠ 0 →
  filter (λ issue, is_filename_issue issue) (fst (checkLimits this w))
  = (λ f, "Filename length is " +:+ pretty (str_length (name f)) +:+ ", max is "
            +:+ pretty m +:+ ": " +:+ name f)
      <$> filter (λ f, m < str_length (name f)) (files (archive w)).
Proof.
  intros Hm Hm0. rewrite checkLimits_issues, Hm. simpl.
  rewrite bool_decide_true by done. rewrite filter_app.
  assert (filter (λ issue, is_filename_issue issue)
            (if truthy (maxFileCount (limits (metadata this)))
                && gt_limit (len (files (archive w)))
                     (maxFileCount (limits (metadata this)))
             then [file_count_issue (len (files (archive w)))
                     (maxFileCount (limits (metadata this)))]
             else []) = []) as ->.
  { destruct (_ && _); [|done].
    rewrite filter_cons_False; [done|].
    rewrite (proj2 (file_count_issue_kind _ _)). intros []. }
  simpl. rewrite filter_all.
  - f_equal. apply list_filter_iff. intros f. apply bool_decide_spec.
  - intros issue (f & -> & _)%list_elem_of_fmap.
    by rewrite (proj2 (filename_issue_kind _ _)).
Qed.

Lemma filter_none {A : Type} (P : A → Prop) `{∀ x, Decision (P x)} (l : list A) :
  (∀ x, x ∈ l → ¬ P x) → filter P l = [].
Proof.
  induction l as [|x l IH]; intros Hall; [done|].
  rewrite filter_cons_False by (apply Hall; left).
  apply IH. intros y Hy. apply Hall. by right.
Qed.

(** X14. [checkLimits] returns no issue exactly when the archive fits the
    limits that are set to a number other than 0: not more files than
    [maxFileCount], and no name longer than [maxFilenameLen]. *)
Theorem checkLimits_no_issue_iff this w :
  fst (checkLimits this w) = []
  ↔ (∀ m, maxFileCount (limits (metadata this)) = Some m → m ≠ 0 →
       len (files (archive w)) ≤ m)
    ∧ (∀ m, maxFilenameLen (limits (metadata this)) = Some m → m ≠ 0 →
         ∀ f, f ∈ files (archive w) → str_length (name f) ≤ m).
Proof.
  rewrite checkLimits_issues.
  set (count_part := if _ && _ then _ else _).
  set (name_part := if truthy _ then _ else _).
  assert (count_part = []
          ↔ ∀ m, maxFileCount (limits (metadata this)) = Some m → m ≠ 0 →
              len (files (archive w)) ≤ m) as Hcount.
  { subst count_part. destruct (maxFileCount _) as [c|]; simpl.
    2:{ split; [by intros _ m [=]|done]. }
    destruct (decide (c ≠ 0 ∧ c < len (files (archive w)))) as [[Hc0 Hc]|Hc].
    - rewrite !bool_decide_true by done. simpl. split; [discriminate|].
      intros Hfit. specialize (Hfit c eq_refl Hc0). lia.
    - assert (bool_decide (c ≠ 0) && bool_decide (c < len (files (archive w))) = false)
        as -> by (repeat case_bool_decide; simpl; try done; lia).
      split; [|done]. intros _ m [= <-] Hm. lia. }
  assert (name_part = []
          ↔ ∀ m, maxFilenameLen (limits (metadata this)) = Some m → m ≠ 0 →
              ∀ f, f ∈ files (archive w) → str_length (name f) ≤ m) as Hname.
  { subst name_part. destruct (maxFilenameLen _) as [n|]; simpl.
    2:{ split; [by intros _ m [=]|done]. }
    case_bool_decide as Hn0.
    2:{ split; [|done]. intros _ m [= <-] Hm. done. }
    split.
    - intros Hnil m [= <-] _ f Hf. apply fmap_nil_inv in Hnil.
      destruct (decide (str_length (name f) ≤ n)); [done|].
      assert (f ∈ filter (λ f, bool_decide (n < str_length (name f)))
                (files (archive w))) as Hin.
      { apply list_elem_of_filter. split; [|done]. apply bool_decide_pack. lia. }
      rewrite Hnil in Hin. by apply elem_of_nil in Hin.
    - intros Hfit. rewrite filter_none; [done|].
      intros f Hf Hgt. apply bool_decide_unpack in Hgt.
      specialize (Hfit n eq_refl Hn0 f Hf). lia. }
  rewrite <- Hcount, <- Hname. split.
  - intros Hnil. by apply app_eq_nil in Hnil.
  - intros [-> ->]. done.
Qed.

Lemma nativeSize_warning_kind f content :
  is_file_count_issue (nativeSize_warning f content) = false
  ∧ is_filename_issue (nativeSize_warning f content) = false.
Proof.
  unfold is_file_count_issue, is_filename_issue. split; lazy; reflexivity.
Qed.

(** Every issue is about the file count or about a filename. *)
Lemma checkLimits_issue_kinds this w issue :
  issue ∈ fst (checkLimits this w) →
  is_file_count_issue issue = true ∨ is_filename_issue issue = true.
Proof.
  rewrite checkLimits_issues. intros [Hin|Hin]%elem_of_app.
  - left. destruct (_ && _); [|by apply elem_of_nil in Hin].
    apply list_elem_of_singleton in Hin as ->. apply file_count_issue_kind.
  - right. destruct (truthy _); [|by apply elem_of_nil in Hin].
    apply list_elem_of_fmap in Hin as (f & -> & _). apply filename_issue_kind.
Qed.

(** X15. The warnings of [checkLimits] are, in archive order, one for each
    entry whose [nativeSize] is 0 while its content is not empty; they go
    to the debug channel, whatever the limits are, and none of them is
    among the issues that are returned. *)
Theorem checkLimits_warnings this w :
  debug_log (snd (checkLimits this w))
  = debug_log w
    ++ ((λ f, nativeSize_warning f (getContent f ()))
          <$> filter (λ f, nativeSize f = 0 ∧ getContent f () ≠ [])
                (files (archive w)))
  ∧ (∀ f content, nativeSize_warning f content ∉ fst (checkLimits this w)).
Proof.
  split.
  2:{ intros f content Hin.
      destruct (nativeSize_warning_kind f content) as [Hc Hn].
      destruct (checkLimits_issue_kinds this w _ Hin); congruence. }
  unfold checkLimits. simpl.
  generalize (files (archive w)). intros fs. revert w.
  induction fs as [|f fs IH]; intros w; simpl; [by rewrite app_nil_r|].
  rewrite IH. unfold checkLimits_nativeSize.
  destruct (decide (nativeSize f = 0 ∧ getContent f () ≠ [])) as [[Hz Hne]|Hno].
  - rewrite filter_cons_True by done.
    rewrite bool_decide_true by done.
    rewrite bool_decide_true
      by (unfold len; destruct (getContent f ()); [done|simpl; lia]).
    simpl. by rewrite <- app_assoc.
  - rewrite filter_cons_False by done.
    case_bool_decide as Hz; [|done].
    rewrite bool_decide_false; [done|].
    intros Hlen. apply Hno. split; [done|]. intros Hnil. apply Hlen.
    by rewrite Hnil.
Qed.

(** X16. The defaults of the base class: a handler that keeps the default
    [identify] is never returned by [findHandler], and a handler that keeps
    the default limits has no issue with any archive. *)
Theorem ImageHandler_defaults this :
  (identify this = ImageHandler_identify →
   ∀ fileTypes content, this ∉ findHandler fileTypes content)
  ∧ (limits (metadata this) = limits ImageHandler_metadata →
     ∀ w, fst (checkLimits this w) = []).
Proof.
  split.
  - intros Hid fileTypes content Hin.
    destruct (findHandler_shape content fileTypes) as (_ & _ & Hno).
    apply (Hno this Hin). by rewrite Hid.
  - intros Hlim w. rewrite checkLimits_issues, Hlim. done.
Qed.
End checkLimits_more.

Lemma checkLimits_filename_issues_witness :
  filter (λ issue, is_filename_issue issue)
    (fst (checkLimits
            (example_handler "x" DefiniteNoMatch
               {| maxFilenameLen := Some 12; maxFileCount := Some 1 |})
            (example_world [example_file "short.dat" [1];
                            example_file "abcdefghijklmnopqrst" [1]])))
  = ["Filename length is 20, max is 12: abcdefghijklmnopqrst"].
Proof.
  rewrite (checkLimits_filename_issues
             (example_handler "x" DefiniteNoMatch
                {| maxFilenameLen := Some 12; maxFileCount := Some 1 |})
             (example_world [example_file "short.dat" [1];
                             example_file "abcdefghijklmnopqrst" [1]]) 12);
    [vm_compute; reflexivity|reflexivity|lia].
Defined.

Lemma ImageHandler_defaults_witness :
  (ImageHandler
     ∉ findHandler [example_handler "a" PossibleMatch no_limits; ImageHandler] [])
  ∧ fst (checkLimits ImageHandler
           (example_world [example_file "abcdefghijklmnopqrst" [1]])) = [].
Proof.
  destruct (ImageHandler_defaults ImageHandler) as [H1 H2].
  split; [apply H1; reflexivity|apply H2; reflexivity].
Defined.

(** ** The planar codec: more on plane counts and bit order *)

(** X17. A plane count of 0: on a content that is not empty [fromPlanar]
    throws [RangeError] for the infinite buffer length, whatever
    [planeWidth] is, while [toPlanar] returns an empty buffer; on an empty
    content [fromPlanar] returns an empty buffer for every plane count and
    every positive [planeWidth]. *)
Theorem codec_planes_zero content planes planeWidth byteOrderMSB :
  (content ≠ [] →
   fromPlanar content 0 planeWidth byteOrderMSB
   = inl JS.RangeError_invalid_typed_array_length
   ∧ toPlanar content 0 planeWidth byteOrderMSB = inr [])
  ∧ (0 < planeWidth → fromPlanar [] planes planeWidth byteOrderMSB = inr []).
Proof.
  split.
  - intros Hne. split.
    + unfold fromPlanar, JS.new_Uint8Array. rewrite decide_True by done.
      rewrite decide_False; [done|].
      unfold len. destruct content; [done|simpl; lia].
    + destruct (toPlanar_returns content 0 planeWidth byteOrderMSB) as (out & -> & Hlen);
        [lia|].
      rewrite Z.mul_0_r in Hlen. change (0 / 8) with 0 in Hlen.
      f_equal. apply length_zero_iff_nil. unfold len in Hlen. lia.
  - intros Hw. unfold fromPlanar.
    assert (JS.new_Uint8Array (len [] * 8) planes = inr []) as ->.
    { unfold JS.new_Uint8Array. change (len [] * 8) with 0.
      destruct (decide (planes = 0)); [by rewrite decide_True|].
      rewrite Z.quot_0_l by done. by rewrite decide_False by lia. }
    pose proof (ceil_div8_pos planeWidth Hw). by case_decide; [lia|].
Qed.

Lemma codec_planes_zero_witness :
  fromPlanar [1; 2] 0 8 true = inl JS.RangeError_invalid_typed_array_length
  ∧ toPlanar [1; 2] 0 8 true = inr []
  ∧ fromPlanar [] 0 8 true = inr [].
Proof.
  destruct (codec_planes_zero [1; 2] 0 8 true) as [H1 H2].
  destruct H1 as [Ha Hb]; [discriminate|].
  split; [exact Ha|]. split; [exact Hb|]. apply H2. lia.
Defined.

Lemma new_Uint8Array_replicate num den out :
  JS.new_Uint8Array num den = inr out → ∃ n, out = replicate n 0.
Proof.
  unfold JS.new_Uint8Array. intros H.
  destruct (decide (den = 0)).
  - destruct (decide (num = 0)); [|discriminate]. exists 0%nat. by simplify_eq.
  - destruct (decide (Z.quot num den < 0)); [discriminate|]. eexists. by simplify_eq.
Qed.

Lemma for_loop_rel {St St' : Type} (R : St → St' → Prop)
    (f : Z → St → St) (g : Z → St' → St') limit step :
  0 ≤ step →
  ∀ fuel i s s',
    (∀ k t t', i ≤ k < limit → R t t' → R (f k t) (g k t')) →
    R s s' →
    R (JS.for_loop fuel i limit step f s) (JS.for_loop fuel i limit step g s').
Proof.
  intros Hstep fuel. induction fuel as [|fuel IH]; intros i s s' Hfg HR; simpl; [done|].
  destruct (decide (i < limit)); [|done].
  apply IH; [|apply Hfg; [lia|done]].
  intros k t t' ?. apply Hfg. lia.
Qed.

Lemma reverse_bits8_high v q : 8 ≤ q → Z.testbit (reverse_bits8 v) q = false.
Proof.
  intros Hq. unfold reverse_bits8. cbn [fmap list_fmap fold_right].
  rewrite !Z.lor_spec, !shiftl_b2z_testbit, Z.bits_0 by lia.
  by rewrite !bool_decide_false by lia.
Qed.

(** A write at the mirrored bit keeps two arrays mirror images. *)
Lemma or_assign_reversed out k (c : bool) u :
  0 ≤ u < 8 →
  JS.or_assign (reverse_bits8 <$> out) k (JS.shl (Z.b2z c) (Some (7 - u)))
  = reverse_bits8 <$> JS.or_assign out k (JS.shl (Z.b2z c) (Some u)).
Proof.
  intros Hu. unfold JS.or_assign. destruct k as [k|]; [|done].
  case_decide; [|done]. rewrite list_fmap_insert, list_lookup_fmap.
  destruct (out !! Z.to_nat k) as [old|] eqn:Hold; simpl.
  2:{ by rewrite !list_insert_ge
        by (rewrite length_fmap; by apply lookup_ge_None). }
  f_equal. apply Z.bits_inj'. intros q Hq.
  destruct (decide (q < 8)) as [Hq8|Hq8].
  - rewrite reverse_bits8_testbit by lia. rewrite !ToUint8_testbit by lia.
    rewrite !bool_decide_true by lia. simpl. unfold JS.or. simpl.
    rewrite !Z.lor_spec, !ToInt32_testbit by lia.
    rewrite reverse_bits8_testbit by lia.
    rewrite !shl_bit_testbit by lia. do 2 f_equal. apply bool_decide_ext. lia.
  - rewrite reverse_bits8_high by lia. rewrite ToUint8_testbit by lia.
    by rewrite bool_decide_false by lia.
Qed.

(** X18. The two bit orders of [toPlanar] give mirror images: with the most
    significant bit first every byte is the bit-reversed byte of the result
    with the least significant bit first, for every plane count and plane
    width (the failure of the allocation is the same in both). *)
Theorem toPlanar_bit_order content planes planeWidth :
  toPlanar content planes planeWidth true
  = match toPlanar content planes planeWidth false with
    | inl e => inl e
    | inr packed => inr (reverse_bits8 <$> packed)
    end.
Proof.
  unfold toPlanar. destruct (JS.new_Uint8Array _ 8) as [e|out0] eqn:Hnew; [done|].
  f_equal.
  assert (out0 = reverse_bits8 <$> out0) as Hzero.
  { destruct (new_Uint8Array_replicate _ _ _ Hnew) as [n ->].
    by rewrite fmap_replicate. }
  set (R := λ st st' : Z * list Z, fst st = fst st' ∧ snd st = reverse_bits8 <$> snd st').
  assert (R (JS.for_loop (length content) 0 (len content) 1
               (toPlanar_pixel content planes planeWidth true (JS.ceil_div8 planeWidth))
               (0, out0))
            (JS.for_loop (length content) 0 (len content) 1
               (toPlanar_pixel content planes planeWidth false (JS.ceil_div8 planeWidth))
               (0, out0))) as [_ Hfinal]; [|done].
  apply for_loop_rel; [lia| |by split].
  intros i [outpos out] [outpos' out'] Hi [Hpos Hout]. simpl in Hpos, Hout. subst.
  unfold toPlanar_pixel.
  pose proof (Z.mod_pos_bound i 8).
  rewrite !Z.rem_mod_nonneg by lia.
  set (pixelByte := JS.rem _ (JS.ceil_div8 planeWidth)).
  set (data := JS.get content (Some i)).
  assert (JS.for_loop (Z.to_nat planes) 0 planes 1
            (toPlanar_plane data pixelByte (7 - i mod 8) (JS.ceil_div8 planeWidth) outpos')
            (reverse_bits8 <$> out')
          = reverse_bits8
              <$> JS.for_loop (Z.to_nat planes) 0 planes 1
                    (toPlanar_plane data pixelByte (i mod 8)
                       (JS.ceil_div8 planeWidth) outpos') out') as ->.
  { apply (for_loop_rel (λ o o', o = reverse_bits8 <$> o')); [lia| |done].
    intros b o o' Hb ->. unfold toPlanar_plane.
    assert (∃ c : bool, JS.and (JS.sar data b) 1 = Z.b2z c) as [c ->].
    { destruct (bit_extract_01 data b) as [->| ->]; [by exists false|by exists true]. }
    apply or_assign_reversed. lia. }
  by destruct (JS.strict_eq _ _).
Qed.

(** ** The further properties on examples *)

Lemma findHandler_empty_iff_witness :
  findHandler [ImageHandler; example_handler "a" DefiniteNoMatch no_limits] [1; 2] = [].
Proof.
  apply (findHandler_empty_iff [1; 2]
           [ImageHandler; example_handler "a" DefiniteNoMatch no_limits]).
  intros x [->|Hx]%elem_of_cons; [reflexivity|].
  apply list_elem_of_singleton in Hx. subst x. reflexivity.
Defined.

Lemma getHandler_first_witness :
  getHandler [example_handler "img-a" PossibleMatch no_limits;
              example_handler "img-b" DefiniteMatch no_limits] "pal-c" = None.
Proof.
  apply (proj2 (getHandler_first
                  [example_handler "img-a" PossibleMatch no_limits;
                   example_handler "img-b" DefiniteMatch no_limits] "pal-c")).
  intros x [->|Hx]%elem_of_cons; [simpl; discriminate|].
  apply list_elem_of_singleton in Hx. subst x. simpl. discriminate.
Defined.

Lemma checkLimits_no_issue_iff_witness :
  fst (checkLimits
         (example_handler "x" DefiniteNoMatch
            {| maxFilenameLen := Some 12; maxFileCount := Some 2 |})
         (example_world [example_file "a.dat" [1]; example_file "b.dat" []])) = [].
Proof.
  apply (checkLimits_no_issue_iff
           (example_handler "x" DefiniteNoMatch
              {| maxFilenameLen := Some 12; maxFileCount := Some 2 |})
           (example_world [example_file "a.dat" [1]; example_file "b.dat" []])).
  split.
  - intros m [= <-] _. vm_compute. discriminate.
  - intros m [= <-] _ f [->|Hf]%elem_of_cons; [vm_compute; discriminate|].
    apply list_elem_of_singleton in Hf. subst f. vm_compute. discriminate.
Defined.
